(** * tap.py: the release-reconciliation engine of the Homebrew tap

    A shallow embedding of [src/tap.py] and the properties of its
    version-bump pipeline: release resolution, reading the declared version
    of a formula file, artifact fetching and hashing, rendering of the
    formula text and the per-formula step of [update_tap].

    Conventions.
    - A Python [str] is a list of Unicode code points ([N]); a Python
      [bytes] is a list of [Byte.byte].  String literals of the source are
      written [u "..."]; the double quote, the apostrophe and the line feed
      are the constants [dq], [sq] and [nl].
    - A call that may raise returns a [result]; code with effects (network
      requests, file-system writes) runs in the monad [IO], which threads a
      [state] made of the files on disk and the trace of the effects
      performed so far.  The state reached when an exception is raised is
      kept: effects performed before the raise have happened.
    - The functions of Python's library and the outside world that the
      script calls but does not define are the fields of [Runtime].
    - [mkdir] and [write_text] may raise: what they do is given by the
      runtime, and a failed write may leave the file changed.
    - Calls to [_log] produce console output only and are left out.
    - Embedded: [FORMULA_TEMPLATE], [to_pascal_case], [GithubClient],
      [Archive], [Archives], [Man.format], [Completion], the properties and
      [formula_version] of [Formula], [HomebrewContext] and the [for] loop
      of [update_tap].  The loading of [.tap.toml], the colour helpers and
      the commit and push that end [update_tap] are not. *)

From Stdlib Require Import ZArith NArith List Lia Bool.
From Stdlib.Strings Require Import String Ascii Byte.
From stdpp Require Import base decidable option list gmap.

Import ListNotations.
Local Open Scope N_scope.
Set Warnings "-register-all".

(* ===================================================================== *)
(** * Python values *)
(* ===================================================================== *)

Abbreviation str := (list N).
Abbreviation bytes := (list Byte.byte).

(** The code points of an ASCII literal. *)
Definition u (s : string) : str :=
  List.map N_of_ascii (list_ascii_of_string s).

Definition nl : N := 10.
Definition cr : N := 13.
Definition dq : N := 34.
Definition sq : N := 39.

Inductive exn : Type :=
| VersionUpToDate
| StopIteration
| IndexError (msg : str)
| KeyError (key : str)
| TypeError (msg : str)
| AttributeError (msg : str)
| ValueError (msg : str)
| RuntimeError (msg : str)
| UnicodeError (msg : str)
| OtherError (msg : str).

Inductive result (A : Type) : Type :=
| OK (a : A)
| Raise (e : exn).
Arguments OK {A} a.
Arguments Raise {A} e.

Definition bindR {A B} (r : result A) (k : A -> result B) : result B :=
  match r with
  | OK a => k a
  | Raise e => Raise e
  end.

Declare Scope result_scope.
Delimit Scope result_scope with res.
Notation "'let!' x ':=' e 'in' k" := (bindR e (fun x => k))
  (at level 10, x name, e at level 200, k at level 200) : result_scope.

(** [for x in xs: f x] collecting the values, stopping at the first raise. *)
Fixpoint mapR {A B} (f : A -> result B) (xs : list A) : result (list B) :=
  match xs with
  | [] => OK []
  | x :: xs' =>
      (let! y := f x in let! ys := mapR f xs' in OK (y :: ys))%res
  end.

(* ===================================================================== *)
(** * The [str] methods the script uses *)
(* ===================================================================== *)

Definition str_eqb (a b : str) : bool := bool_decide (a = b).

(** [s.startswith(p)] *)
Fixpoint str_startswith (p s : str) : bool :=
  match p, s with
  | [], _ => true
  | _ :: _, [] => false
  | a :: p', b :: s' => (a =? b) && str_startswith p' s'
  end.

(** [s.endswith(p)] *)
Definition str_endswith (p s : str) : bool :=
  str_startswith (rev p) (rev s).

(** [c in chars] *)
Definition char_in (chars : str) (c : N) : bool :=
  existsb (N.eqb c) chars.

(** [s.lstrip(chars)]: drops every leading character that occurs in
    [chars]. *)
Fixpoint str_lstrip (chars : str) (s : str) : str :=
  match s with
  | [] => []
  | c :: t => if char_in chars c then str_lstrip chars t else s
  end.

(** [c.isspace()], the characters [str.strip()] removes. *)
Definition is_space (c : N) : bool :=
  ((9 <=? c) && (c <=? 13)) || ((28 <=? c) && (c <=? 32))
  || (c =? 133) || (c =? 160) || (c =? 5760)
  || ((8192 <=? c) && (c <=? 8202))
  || (c =? 8232) || (c =? 8233) || (c =? 8239) || (c =? 8287)
  || (c =? 12288).

Fixpoint lstrip_space (s : str) : str :=
  match s with
  | [] => []
  | c :: t => if is_space c then lstrip_space t else s
  end.

Fixpoint rstrip_space (s : str) : str :=
  match s with
  | [] => []
  | c :: t =>
      match rstrip_space t with
      | [] => if is_space c then [] else [c]
      | r => c :: r
      end
  end.

(** [s.strip()] *)
Definition str_strip (s : str) : str := rstrip_space (lstrip_space s).

(** [s.split(sep)] for a separator of one character. *)
Fixpoint str_split (sep : N) (s : str) : list str :=
  match s with
  | [] => [[]]
  | c :: t =>
      if c =? sep then [] :: str_split sep t
      else match str_split sep t with
           | [] => [[c]]
           | w :: ws => (c :: w) :: ws
           end
  end.

(** The line boundaries of [str.splitlines()]. *)
Definition is_linebreak (c : N) : bool :=
  ((10 <=? c) && (c <=? 13)) || ((28 <=? c) && (c <=? 30))
  || (c =? 133) || (c =? 8232) || (c =? 8233).

(** [cur] is the line being read, in reverse. *)
Fixpoint splitlines_from (cur : str) (s : str) : list str :=
  match s with
  | [] => match cur with [] => [] | _ => [rev cur] end
  | c :: t =>
      if is_linebreak c then
        rev cur ::
          match t with
          | c' :: t' =>
              if (c =? cr) && (c' =? nl) then splitlines_from [] t'
              else splitlines_from [] t
          | [] => splitlines_from [] t
          end
      else splitlines_from (c :: cur) t
  end.

(** [s.splitlines()] *)
Definition str_splitlines (s : str) : list str := splitlines_from [] s.

(** [sep.join(parts)] *)
Fixpoint str_join (sep : str) (parts : list str) : str :=
  match parts with
  | [] => []
  | [p] => p
  | p :: ps => p ++ sep ++ str_join sep ps
  end.

(** [str(n)] for an [int]. *)
Definition digit_char (d : N) : N := 48 + d.

Fixpoint decimal_digits (fuel : nat) (n : N) (acc : str) : str :=
  match fuel with
  | O => acc
  | S fuel' =>
      let acc' := digit_char (n mod 10) :: acc in
      if n / 10 =? 0 then acc' else decimal_digits fuel' (n / 10) acc'
  end.

Definition str_of_int (z : Z) : str :=
  let n := Z.abs_N z in
  let digits := decimal_digits (S (N.to_nat (N.log2 n))) n [] in
  if (z <? 0)%Z then u "-" ++ digits else digits.

(** [xs[i]] for a list and a non-negative index. *)
Definition list_getitem {A} (xs : list A) (i : nat) : result A :=
  match nth_error xs i with
  | Some x => OK x
  | None => Raise (IndexError (u "list index out of range"))
  end.

(** [s.rfind(c)] for a one-character [c]: the highest index, or -1. *)
Fixpoint rfind_from (c : N) (s : str) (i : Z) : Z :=
  match s with
  | [] => (-1)%Z
  | x :: t =>
      let k := rfind_from c t (i + 1)%Z in
      if (0 <=? k)%Z then k else if x =? c then i else (-1)%Z
  end.

Definition str_rfind (c : N) (s : str) : Z := rfind_from c s 0%Z.

(** [s[i:j]] and friends, for non-negative bounds. *)
Definition str_slice (s : str) (i j : Z) : str :=
  take (Z.to_nat j - Z.to_nat i)%nat (drop (Z.to_nat i) s).
Definition str_prefix (s : str) (j : Z) : str := take (Z.to_nat j) s.
Definition str_suffix (s : str) (i : Z) : str := drop (Z.to_nat i) s.

(* ===================================================================== *)
(** * The outside world: JSON values, HTTP, the library, the state *)
(* ===================================================================== *)

(** What [json.loads] returns.  A [dict] is kept as its items. *)
Inductive json : Type :=
| JNull
| JBool (b : bool)
| JInt (z : Z)
| JFloat
| JStr (s : str)
| JArr (xs : list json)
| JObj (items : list (str * json)).

Definition json_type_name (j : json) : str :=
  match j with
  | JNull => u "NoneType"
  | JBool _ => u "bool"
  | JInt _ => u "int"
  | JFloat => u "float"
  | JStr _ => u "str"
  | JArr _ => u "list"
  | JObj _ => u "dict"
  end.

Fixpoint dict_get {V} (items : list (str * V)) (key : str) : option V :=
  match items with
  | [] => None
  | (k, v) :: rest => if str_eqb k key then Some v else dict_get rest key
  end.

(** [j[key]] for a [str] key. *)
Definition json_getitem (j : json) (key : str) : result json :=
  match j with
  | JObj items =>
      match dict_get items key with
      | Some v => OK v
      | None => Raise (KeyError key)
      end
  | JArr _ =>
      Raise (TypeError (u "list indices must be integers or slices, not str"))
  | JStr _ =>
      Raise (TypeError (u "string indices must be integers, not 'str'"))
  | _ =>
      Raise (TypeError ([sq] ++ json_type_name j
                          ++ u "' object is not subscriptable"))
  end.

(** [j.lstrip(chars)]: only a [str] has the method. *)
Definition json_lstrip (j : json) (chars : str) : result str :=
  match j with
  | JStr s => OK (str_lstrip chars s)
  | _ =>
      Raise (AttributeError ([sq] ++ json_type_name j
                               ++ u "' object has no attribute 'lstrip'"))
  end.

Record Request := { req_url : str; req_headers : list (str * str) }.
Record Response := { status : Z; body : bytes }.

(** Library functions and surroundings the script relies on. *)
Record Runtime := {
  (** [urllib.request.urlopen]: the response, or the exception raised. *)
  urlopen : Request -> result Response;
  (** [s.encode('utf-8')]: the bytes, or the [UnicodeEncodeError] raised
      for a string that holds a surrogate. *)
  utf8_encode : str -> result bytes;
  (** [b.decode('utf-8')] *)
  utf8_decode : bytes -> result str;
  (** [hashlib.sha256(b).hexdigest()] *)
  sha256_hexdigest : bytes -> str;
  (** [json.loads] *)
  json_loads : str -> result json;
  (** [fmt.format(k1=v1, ...)] with keyword arguments of type [str] *)
  str_format : str -> list (str * str) -> result str;
  (** [repr(s)] *)
  str_repr : str -> str;
  (** the character class [\w] of [re] *)
  re_word : N -> bool;
  (** [s.capitalize()] *)
  str_capitalize : str -> str;
  (** the directory that holds [tap.py] *)
  tap_dir : str;
  (** [dir.mkdir(parents=True, exist_ok=True)]: the exception raised, if
      any. *)
  fs_mkdir : str -> option exn;
  (** [path.write_text(text, encoding='utf-8')]: [None] when the write
      succeeds; otherwise the exception raised and what the file holds
      afterwards, [None] when the file was not touched (it could not be
      opened) and [Some partial] when it was truncated and holds [partial]. *)
  fs_write : str -> str -> option (exn * option str)
}.

Inductive event : Type :=
| EvUrlopen (req : Request)
| EvMkdir (dir : str)
| EvWriteText (path text : str).

Record state := { files : gmap (list N) (list N); trace : list event }.

Definition IO (A : Type) : Type := state -> result A * state.

Definition ret {A} (a : A) : IO A := fun st => (OK a, st).
Definition raise {A} (e : exn) : IO A := fun st => (Raise e, st).
Definition bindIO {A B} (m : IO A) (k : A -> IO B) : IO B :=
  fun st =>
    match m st with
    | (OK a, st') => k a st'
    | (Raise e, st') => (Raise e, st')
    end.
Definition liftR {A} (r : result A) : IO A := fun st => (r, st).
Definition emit (ev : event) : IO unit :=
  fun st => (OK tt, {| files := files st; trace := trace st ++ [ev] |}).

Declare Scope io_scope.
Delimit Scope io_scope with io.
Notation "'let!' x ':=' e 'in' k" := (bindIO e (fun x => k))
  (at level 10, x name, e at level 200, k at level 200) : io_scope.

(** [urlopen(req)]: the request goes out, then the oracle answers. *)
Definition urlopen_io (rt : Runtime) (req : Request) : IO Response :=
  (let! _ := emit (EvUrlopen req) in liftR (urlopen rt req))%io.

(** [path.exists()] and [path.read_text(encoding='utf-8')] *)
Definition path_exists (path : str) : IO bool :=
  fun st => (OK (bool_decide (is_Some (files st !! path))), st).
Definition read_text (path : str) : IO str :=
  fun st =>
    match files st !! path with
    | Some text => (OK text, st)
    | None => (Raise (OtherError (u "No such file or directory")), st)
    end.

(** [path.parent.mkdir(parents=True, exist_ok=True)]: the call is
    recorded, then it returns or raises. *)
Definition mkdir_parents (rt : Runtime) (dir : str) : IO unit :=
  (let! _ := emit (EvMkdir dir) in
   match fs_mkdir rt dir with
   | None => ret tt
   | Some e => raise e
   end)%io.

(** [path.write_text(text, encoding='utf-8')]: the call is recorded; then
    the file holds [text], or the call raises and the file is as it was
    or holds what the failed write left. *)
Definition write_text (rt : Runtime) (path text : str) : IO unit :=
  fun st =>
    let tr := trace st ++ [EvWriteText path text] in
    match fs_write rt path text with
    | None => (OK tt, {| files := <[path := text]> (files st); trace := tr |})
    | Some (e, None) => (Raise e, {| files := files st; trace := tr |})
    | Some (e, Some partial) =>
        (Raise e, {| files := <[path := partial]> (files st); trace := tr |})
    end.

(** [executor.submit(task)]: the task runs to its end on a worker, its
    value or exception is kept in the future.  The pool leaves the order
    of the workers' requests to the scheduler; the trace records them in
    submission order, one worker after the other, and a statement that
    holds for every order says so with [Permutation]. *)
Definition submit {A} (task : IO A) : IO (result A) :=
  fun st => let '(r, st') := task st in (OK r, st').

(** [future.result()] *)
Definition future_result {A} (fut : result A) : IO A := liftR fut.

(** [b.attr('utf-8')] for a [bytes] value [b] and the attribute name the
    source text has at the call.  The script has two such calls, one
    written [decode] and one written [decude]; [bytes] has no attribute of
    the second name, and looking it up raises [AttributeError]. *)
Definition bytes_call (rt : Runtime) (b : bytes) (attr : str) : result str :=
  if str_eqb attr (u "decode") then utf8_decode rt b
  else Raise (AttributeError (u "'bytes' object has no attribute '"
                                ++ attr ++ [sq])).

(* ===================================================================== *)
(** * The script *)
(* ===================================================================== *)

Definition USER_AGENT : str := u "github.com/lmaotrigine/homebrew-tap@1.0".

(** ** [FORMULA_TEMPLATE]

    The format string, as the sequence of its literal runs and replacement
    fields; every field is plain ([{desc}], no conversion or format
    spec) and every argument is a [str]. *)
Inductive field : Type :=
| F_desc | F_cname | F_homepage | F_version | F_license | F_depsfmt
| F_mac_x86_64_url | F_mac_x86_64_sha256
| F_mac_aarch64_url | F_mac_aarch64_sha256
| F_linux_x86_64_url | F_linux_x86_64_sha256
| F_linux_aarch64_url | F_linux_aarch64_sha256
| F_binsfmt | F_mansfmt | F_completionsfmt.

Inductive piece : Type :=
| Lit (s : str)
| Field (f : field).

Definition Q : piece := Lit [dq].
Definition NL : piece := Lit [nl].

Definition FORMULA_TEMPLATE : list piece :=
  [ Lit (u "# frozen_string_literal: true"); NL;
    NL;
    Lit (u "# "); Field F_desc; NL;
    Lit (u "class "); Field F_cname; Lit (u " < Formula"); NL;
    Lit (u "  desc "); Q; Field F_desc; Q; NL;
    Lit (u "  homepage "); Q; Field F_homepage; Q; NL;
    Lit (u "  version "); Q; Field F_version; Q; NL;
    Lit (u "  license "); Q; Field F_license; Q; NL;
    Field F_depsfmt; NL;
    Lit (u "  if OS.mac?"); NL;
    Lit (u "    on_intel do"); NL;
    Lit (u "      url "); Q; Field F_mac_x86_64_url; Q; NL;
    Lit (u "      sha256 "); Q; Field F_mac_x86_64_sha256; Q; NL;
    Lit (u "    end"); NL;
    Lit (u "    on_arm do"); NL;
    Lit (u "      url "); Q; Field F_mac_aarch64_url; Q; NL;
    Lit (u "      sha256 "); Q; Field F_mac_aarch64_sha256; Q; NL;
    Lit (u "    end"); NL;
    Lit (u "  elsif OS.linux?"); NL;
    Lit (u "    on_intel do"); NL;
    Lit (u "      url "); Q; Field F_linux_x86_64_url; Q; NL;
    Lit (u "      sha256 "); Q; Field F_linux_x86_64_sha256; Q; NL;
    Lit (u "    end"); NL;
    Lit (u "    on_arm do"); NL;
    Lit (u "      url "); Q; Field F_linux_aarch64_url; Q; NL;
    Lit (u "      sha256 "); Q; Field F_linux_aarch64_sha256; Q; NL;
    Lit (u "    end"); NL;
    Lit (u "  end"); NL;
    NL;
    Lit (u "  def install"); Field F_binsfmt; Field F_mansfmt;
      Field F_completionsfmt; NL;
    Lit (u "  end"); NL;
    Lit (u "end"); NL ].

(** [template.format(...)] for such a template. *)
Fixpoint template_format (t : list piece) (kw : field -> str) : str :=
  match t with
  | [] => []
  | Lit s :: t' => s ++ template_format t' kw
  | Field f :: t' => kw f ++ template_format t' kw
  end.

(** ** [to_pascal_case] *)

(** [re.split(pattern, s)] for a pattern [[...]+] given by its character
    class: the fields between the maximal runs of matching characters. *)
Fixpoint re_split_class (cls : N -> bool) (cur : str) (in_run : bool)
    (s : str) : list str :=
  match s with
  | [] => [rev cur]
  | c :: t =>
      if cls c then
        if in_run then re_split_class cls [] true t
        else rev cur :: re_split_class cls [] true t
      else re_split_class cls (c :: cur) false t
  end.

(** The class [[\W_]]. *)
Definition non_word_or_underscore (rt : Runtime) (c : N) : bool :=
  negb (re_word rt c) || (c =? 95).

Definition to_pascal_case (rt : Runtime) (s : str) : str :=
  concat
    (List.map (str_capitalize rt)
       (List.filter (fun word => negb (str_eqb word []))
          (re_split_class (non_word_or_underscore rt) [] false s))).

(** ** [GithubClient] *)

Record GithubClient := { server_url : str; token : str }.

Definition release_request (self : GithubClient) (owner repo : str)
  : Request :=
  {| req_url := server_url self ++ u "/repos/" ++ owner ++ u "/" ++ repo
                  ++ u "/releases/latest";
     req_headers :=
       [ (u "User-Agent", USER_AGENT);
         (u "Accept", u "application/vnd.github.v3+json");
         (u "Authorization", u "token " ++ token self);
         (u "X-GitHub-Api-Version", u "2022-11-28") ] |}.

Definition get_latest_release_version (rt : Runtime) (self : GithubClient)
    (owner repo : str) : IO (option str) :=
  (let! resp := urlopen_io rt (release_request self owner repo) in
   let status := status resp in
   if negb (status =? 200)%Z then
     let! body := liftR (bytes_call rt (body resp) (u "decode")) in
     raise (RuntimeError (u "Failed to get latest release: HTTP status "
                            ++ str_of_int status))
   else
     let! body := liftR (bytes_call rt (body resp) (u "decode")) in
     let! release := liftR (json_loads rt body) in
     match json_getitem release (u "tag_name") with
     | Raise (KeyError _) => ret None
     | Raise e => raise e
     | OK tag_name =>
         let! v := liftR (json_lstrip tag_name (u "v")) in
         ret (Some v)
     end)%io.

(** ** [Archive], [Archives], [Man], [Completion] *)

Record Archive := { url : str; sha256 : str }.

Record Archives := {
  mac_aarch64 : Archive;
  mac_x86_64 : Archive;
  linux_aarch64 : Archive;
  linux_x86_64 : Archive
}.

Record Man := { section : Z; man_path : str }.

Definition Man_format (self : Man) : str :=
  u "man" ++ str_of_int (section self) ++ u ".install " ++ [dq]
    ++ man_path self ++ [dq].

Record Completion := { shell : str; completion_path : str }.

(** [genericpath._splitext(p, sep, altsep, extsep)]: the [while] loop that
    skips the leading dots of the file name runs at most
    [dotIndex - filenameIndex] times. *)
Fixpoint splitext_scan (n : nat) (p : str) (extsep : N)
    (filenameIndex dotIndex : Z) : option (str * str) :=
  match n with
  | O => None
  | S n' =>
      if negb (str_eqb (str_slice p filenameIndex (filenameIndex + 1))
                 [extsep])
      then Some (str_prefix p dotIndex, str_suffix p dotIndex)
      else splitext_scan n' p extsep (filenameIndex + 1)%Z dotIndex
  end.

Definition genericpath_splitext (p : str) (sep : N) (altsep : option N)
    (extsep : N) : str * str :=
  let sepIndex := str_rfind sep p in
  let sepIndex :=
    match altsep with
    | Some a => Z.max sepIndex (str_rfind a p)
    | None => sepIndex
    end in
  let dotIndex := str_rfind extsep p in
  if (sepIndex <? dotIndex)%Z then
    let filenameIndex := (sepIndex + 1)%Z in
    match splitext_scan (Z.to_nat (dotIndex - filenameIndex)) p extsep
            filenameIndex dotIndex with
    | Some r => r
    | None => (p, [])
    end
  else (p, []).

(** [os.path.splitext] of [posixpath]. *)
Definition os_path_splitext (p : str) : str * str :=
  genericpath_splitext p 47 None 46.

Definition Completion_parse (s : str) : Completion :=
  let '(_, ext) := os_path_splitext s in
  let shell :=
    match ext with
    | [] => u "zsh"
    | _ => str_lstrip (u ".") ext
    end in
  {| shell := shell; completion_path := s |}.

Definition Completion_format (self : Completion) : str :=
  shell self ++ u "_completion.install " ++ [dq] ++ completion_path self
    ++ [dq].

(** ** [Formula] *)

Record Formula := {
  repo : str;
  homepage : str;
  desc : str;
  license : str;
  bins : list str;
  mans : list Man;
  deps : list str;
  completions : list Completion;
  archive_fmt : str;
  linux_ext : str;
  darwin_ext : str
}.

Definition Formula_org (self : Formula) : result str :=
  list_getitem (str_split 47 (repo self)) 0.

Definition Formula_name (self : Formula) : result str :=
  list_getitem (str_split 47 (repo self)) 1.

(** [Path(__file__).with_name('Formula').joinpath(f'{self.name}.rb')] *)
Definition Formula_disk_path (rt : Runtime) (self : Formula) : result str :=
  (let! name := Formula_name self in
   OK (tap_dir rt ++ u "/Formula/" ++ name ++ u ".rb"))%res.

(** [disk_path.parent] *)
Definition Formula_disk_dir (rt : Runtime) : str := tap_dir rt ++ u "/Formula".

Definition Formula_github_version (rt : Runtime) (self : Formula)
    (github_token : str) : IO (option str) :=
  let gh_client :=
    {| server_url := u "https://api.github.com"; token := github_token |} in
  (let! org := liftR (Formula_org self) in
   let! name := liftR (Formula_name self) in
   get_latest_release_version rt gh_client org name)%io.

(** [next(line for line in lines if line.strip().startswith('version'))] *)
Definition next_version_line (lines : list str) : result str :=
  match List.find (fun line => str_startswith (u "version") (str_strip line))
          lines with
  | Some line => OK line
  | None => Raise StopIteration
  end.

(** The last two lines of [formula_version]: what is read out of the text
    of a formula file. *)
Definition version_of_text (content : str) : result str :=
  (let! version_line := next_version_line (str_splitlines content) in
   list_getitem (str_split dq version_line) 1)%res.

Definition Formula_formula_version (rt : Runtime) (self : Formula)
  : IO (option str) :=
  (let! disk_path := liftR (Formula_disk_path rt self) in
   let! found := path_exists disk_path in
   if negb found then ret None
   else
     let! content := read_text disk_path in
     let! v := liftR (version_of_text content) in
     ret (Some v))%io.

(** ** [HomebrewContext] *)

Record HomebrewContext := {
  dry_run : bool;
  formula : Formula;
  new_version : str
}.

(** [HomebrewContext.__init__] *)
Definition HomebrewContext_init (rt : Runtime) (formula : Formula)
    (github_version : str) (dry_run : bool) : IO HomebrewContext :=
  (let! formula_version := Formula_formula_version rt formula in
   if bool_decide (formula_version = Some github_version) then
     raise VersionUpToDate
   else
     ret {| dry_run := dry_run; formula := formula;
            new_version := github_version |})%io.

Definition fetch_and_hash (rt : Runtime) (self : HomebrewContext) (url : str)
  : IO str :=
  if dry_run self then
    (let! encoded := liftR (utf8_encode rt url) in
     ret (sha256_hexdigest rt encoded))%io
  else
    (let! resp := urlopen_io rt {| req_url := url; req_headers := [] |} in
     if negb (status resp =? 200)%Z then
       let! err_text := liftR (bytes_call rt (body resp) (u "decude")) in
       raise (RuntimeError (u "Failed to fetch archive: HTTP status "
                              ++ str_of_int (status resp)))
     else
       let body := body resp in
       let sha := sha256_hexdigest rt body in
       ret sha)%io.

Definition get_archive (rt : Runtime) (self : HomebrewContext) (url : str)
  : IO Archive :=
  (let! digest := fetch_and_hash rt self url in
   ret {| url := url; sha256 := digest |})%io.

Definition package_artifact_url (rt : Runtime) (self : HomebrewContext)
    (arch : str) : result str :=
  let ext :=
    if str_endswith (u "darwin") arch then darwin_ext (formula self)
    else linux_ext (formula self) in
  (let! name := Formula_name (formula self) in
   let! fmt :=
     str_format rt (archive_fmt (formula self))
       [ (u "name", name); (u "version", new_version self);
         (u "arch", arch); (u "ext", ext) ] in
   let! org := Formula_org (formula self) in
   OK (u "https://github.com/" ++ org ++ u "/" ++ name
         ++ u "/releases/download/" ++ new_version self ++ u "/" ++ fmt))%res.

(** The local function [format_dep] of [generate_homebrew_formula]. *)
Definition format_dep (rt : Runtime) (dep : str) : result str :=
  let parts := str_split 35 dep in
  (let! name_kw :=
     match parts with
     | [name] => OK (name, None)
     | [name; kw] => OK (name, Some kw)
     | _ =>
         Raise (ValueError
                  (u "Invalid dependency syntax. Use " ++ [dq] ++ u "name"
                     ++ [dq] ++ u " or " ++ [dq] ++ u "name#keyword" ++ [dq]
                     ++ u " where keyword is " ++ [dq] ++ u "optional"
                     ++ [dq] ++ u " or " ++ [dq] ++ u "recommended" ++ [dq]))
     end in
   let '(name, kw) := name_kw in
   match kw with
   | None => OK ([dq] ++ name ++ [dq])
   | Some kw =>
       if str_eqb kw (u "optional") then
         OK ([dq] ++ name ++ [dq] ++ u " => :optional")
       else if str_eqb kw (u "recommended") then
         OK ([dq] ++ name ++ [dq] ++ u " => :recommended")
       else
         Raise (ValueError
                  (u "Unknown dependency keyword " ++ str_repr rt kw
                     ++ u ". Use 'optional' or 'recommended'"))
   end)%res.

(** [if block: block = f'\n{block}'] *)
Definition nl_prefixed (block : str) : str :=
  match block with
  | [] => []
  | _ => [nl] ++ block
  end.

Definition generate_homebrew_formula (rt : Runtime) (self : HomebrewContext)
    (archives : Archives) : result str :=
  (let! deplines :=
     mapR (fun dep =>
             let! d := format_dep rt dep in OK (u "  depends_on " ++ d))
          (deps (formula self)) in
   let depsfmt := nl_prefixed (str_join [nl] deplines) in
   let binsfmt :=
     nl_prefixed
       (str_join [nl]
          (List.map (fun b => u "    bin.install " ++ [dq] ++ b ++ [dq])
             (bins (formula self)))) in
   let mansfmt :=
     nl_prefixed
       (str_join [nl]
          (List.map (fun m => u "    " ++ Man_format m)
             (mans (formula self)))) in
   let completionsfmt :=
     nl_prefixed
       (str_join [nl]
          (List.map (fun c => u "    " ++ Completion_format c)
             (completions (formula self)))) in
   let! name := Formula_name (formula self) in
   OK (template_format FORMULA_TEMPLATE
         (fun f =>
            match f with
            | F_cname => to_pascal_case rt name
            | F_desc => desc (formula self)
            | F_homepage => homepage (formula self)
            | F_version => new_version self
            | F_license => license (formula self)
            | F_depsfmt => depsfmt
            | F_mac_x86_64_url => url (mac_x86_64 archives)
            | F_mac_x86_64_sha256 => sha256 (mac_x86_64 archives)
            | F_mac_aarch64_url => url (mac_aarch64 archives)
            | F_mac_aarch64_sha256 => sha256 (mac_aarch64 archives)
            | F_linux_x86_64_url => url (linux_x86_64 archives)
            | F_linux_x86_64_sha256 => sha256 (linux_x86_64 archives)
            | F_linux_aarch64_url => url (linux_aarch64 archives)
            | F_linux_aarch64_sha256 => sha256 (linux_aarch64 archives)
            | F_binsfmt => binsfmt
            | F_mansfmt => mansfmt
            | F_completionsfmt => completionsfmt
            end)))%res.

Definition update_formula (rt : Runtime) (self : HomebrewContext) : IO unit :=
  (let! mac_aarch64_url :=
     liftR (package_artifact_url rt self (u "aarch64-apple-darwin")) in
   let! mac_x86_64_url :=
     liftR (package_artifact_url rt self (u "x86_64-apple-darwin")) in
   let! linux_aarch64_url :=
     liftR (package_artifact_url rt self (u "aarch64-unknown-linux-musl")) in
   let! linux_x86_64_url :=
     liftR (package_artifact_url rt self (u "x86_64-unknown-linux-musl")) in
   let! mac_aarch64_future := submit (get_archive rt self mac_aarch64_url) in
   let! mac_x86_64_future := submit (get_archive rt self mac_x86_64_url) in
   let! linux_aarch64_future :=
     submit (get_archive rt self linux_aarch64_url) in
   let! linux_x86_64_future :=
     submit (get_archive rt self linux_x86_64_url) in
   let! mac_aarch64 := future_result mac_aarch64_future in
   let! mac_x86_64 := future_result mac_x86_64_future in
   let! linux_aarch64 := future_result linux_aarch64_future in
   let! linux_x86_64 := future_result linux_x86_64_future in
   let archives :=
     {| mac_aarch64 := mac_aarch64; mac_x86_64 := mac_x86_64;
        linux_aarch64 := linux_aarch64; linux_x86_64 := linux_x86_64 |} in
   let! text := liftR (generate_homebrew_formula rt self archives) in
   let! formula_path := liftR (Formula_disk_path rt (formula self)) in
   if dry_run self then ret tt
   else
     let! _ := mkdir_parents rt (Formula_disk_dir rt) in
     write_text rt formula_path text)%io.

(** ** [update_tap]: the loop over the formulas *)

(** One turn of the [for] loop; [bumped] is the list being built. *)
Definition update_tap_step (rt : Runtime) (dry_run : bool)
    (github_token : str) (bumped : list (str * str)) (formula : Formula)
  : IO (list (str * str)) :=
  (let! name := liftR (Formula_name formula) in
   let! github_version := Formula_github_version rt formula github_token in
   match github_version with
   | None => ret bumped
   | Some github_version =>
       fun st =>
         match HomebrewContext_init rt formula github_version dry_run st with
         | (Raise VersionUpToDate, st') => (OK bumped, st')
         | (Raise e, st') => (Raise e, st')
         | (OK ctx, st') =>
             (let! _ := update_formula rt ctx in
              ret (bumped ++ [(name, github_version)])) st'
         end
   end)%io.

(** The [for] loop of [update_tap]; the commit and the push that follow
    it take [bumped] as their input. *)
Fixpoint update_tap_loop (rt : Runtime) (dry_run : bool) (github_token : str)
    (bumped : list (str * str)) (formulas : list Formula)
  : IO (list (str * str)) :=
  match formulas with
  | [] => ret bumped
  | formula :: rest =>
      (let! bumped' :=
         update_tap_step rt dry_run github_token bumped formula in
       update_tap_loop rt dry_run github_token bumped' rest)%io
  end.

(* ===================================================================== *)
(** * A small runtime and a sample tap, for the examples *)
(* ===================================================================== *)

(** Stand-ins for the library on ASCII text.  [sample_digest] is not
    SHA-256: the examples only need some function of the bytes.
    [sample_encode] gives the bytes of ASCII text. *)
Definition sample_encode (s : str) : bytes :=
  List.map (fun c => default Byte.x00 (Byte.of_N (c mod 256))) s.
Definition sample_decode (b : bytes) : result str :=
  OK (List.map Byte.to_N b).
Definition sample_digest (b : bytes) : str :=
  u "digest:" ++ List.map Byte.to_N b.
Definition sample_repr (s : str) : str := [sq] ++ s ++ [sq].

(** [encode] raises on a surrogate, as Python's does. *)
Definition is_surrogate (c : N) : bool := (55296 <=? c) && (c <=? 57343).
Definition sample_utf8_encode (s : str) : result bytes :=
  if existsb is_surrogate s then
    Raise (UnicodeError (u "'utf-8' codec can't encode: surrogates not allowed"))
  else OK (sample_encode s).

(** The body of a release answer is read as the tag itself. *)
Definition sample_json_loads (s : str) : result json :=
  OK (JObj [(u "tag_name", JStr s)]).

(** Plain [{key}] fields only. *)
Fixpoint sample_format_from (key : option str) (fmt : str)
    (kw : list (str * str)) : result str :=
  match fmt with
  | [] =>
      match key with
      | None => OK []
      | Some _ => Raise (ValueError (u "expected '}' before end of string"))
      end
  | c :: t =>
      match key with
      | None =>
          if c =? 123 then sample_format_from (Some []) t kw
          else (let! r := sample_format_from None t kw in OK (c :: r))%res
      | Some k =>
          if c =? 125 then
            match dict_get kw (rev k) with
            | Some v =>
                (let! r := sample_format_from None t kw in OK (v ++ r))%res
            | None => Raise (KeyError (rev k))
            end
          else sample_format_from (Some (c :: k)) t kw
      end
  end.

Definition ascii_word (c : N) : bool :=
  ((48 <=? c) && (c <=? 57)) || ((65 <=? c) && (c <=? 90))
  || ((97 <=? c) && (c <=? 122)) || (c =? 95).
Definition ascii_upper (c : N) : N :=
  if (97 <=? c) && (c <=? 122) then c - 32 else c.
Definition ascii_lower (c : N) : N :=
  if (65 <=? c) && (c <=? 90) then c + 32 else c.
Definition ascii_capitalize (s : str) : str :=
  match s with
  | [] => []
  | c :: t => ascii_upper c :: List.map ascii_lower t
  end.

Definition sample_runtime (net : Request -> result Response) : Runtime :=
  {| urlopen := net;
     utf8_encode := sample_utf8_encode;
     utf8_decode := sample_decode;
     sha256_hexdigest := sample_digest;
     json_loads := sample_json_loads;
     str_format := sample_format_from None;
     str_repr := sample_repr;
     re_word := ascii_word;
     str_capitalize := ascii_capitalize;
     tap_dir := u "/tap";
     fs_mkdir := fun _ => None;
     fs_write := fun _ _ => None |}.

(** A network where the release index answers 200 with [tag], and an
    artifact URL answers with the status [artifact_status url]. *)
Definition sample_net (tag : str) (artifact_status : str -> Z)
    (req : Request) : result Response :=
  if str_startswith (u "https://api.github.com/") (req_url req) then
    OK {| status := 200; body := sample_encode tag |}
  else
    OK {| status := artifact_status (req_url req);
          body := sample_encode (u "archive") |}.

Definition all_ok (_ : str) : Z := 200%Z.

Definition sample_formula (deps : list str) : Formula :=
  {| repo := u "acme/my-cool-tool";
     homepage := u "https://example.org/tool";
     desc := u "A tool";
     license := u "MIT";
     bins := [u "tool"];
     mans := [{| section := 1; man_path := u "doc/tool.1" |}];
     deps := deps;
     completions := [Completion_parse (u "completions/tool.fish")];
     archive_fmt := u "{name}-{arch}.{ext}";
     linux_ext := u "tar.xz";
     darwin_ext := u "tar.xz" |}.

Definition sample_path : str := u "/tap/Formula/my-cool-tool.rb".

Definition empty_state : state := {| files := ∅; trace := [] |}.

(** A state whose formula file declares [version]. *)
Definition state_declaring (version : str) : state :=
  {| files :=
       {[ sample_path :=
            u "class MyCoolTool < Formula" ++ [nl] ++ u "  version " ++ [dq]
              ++ version ++ [dq] ++ [nl] ++ u "end" ++ [nl] ]};
     trace := [] |}.

Definition sample_ctx (dry : bool) (deps : list str) (version : str)
  : HomebrewContext :=
  {| dry_run := dry; formula := sample_formula deps;
     new_version := version |}.

Definition artifact_request (url : str) : Request :=
  {| req_url := url; req_headers := [] |}.

Definition sample_url (version arch : str) : str :=
  u "https://github.com/acme/my-cool-tool/releases/download/" ++ version
    ++ u "/my-cool-tool-" ++ arch ++ u ".tar.xz".

Definition sample_urls (version : str) : list str :=
  [ sample_url version (u "aarch64-apple-darwin");
    sample_url version (u "x86_64-apple-darwin");
    sample_url version (u "aarch64-unknown-linux-musl");
    sample_url version (u "x86_64-unknown-linux-musl") ].

(* ===================================================================== *)
(** * Predicates and reference definitions used in the statements *)
(* ===================================================================== *)

(** The normalization of a tag in the words of the specification: one
    leading [v] is removed when present, nothing else. *)
Definition spec_strip_one_leading_v (t : str) : str :=
  match t with
  | c :: r => if c =? 118 then r else t
  | [] => []
  end.

(** A dependency declaration that is neither [name], [name#optional] nor
    [name#recommended]: more than one [#], or one [#] and another keyword. *)
Definition malformed_dep (dep : str) : Prop :=
  match str_split 35 dep with
  | [_] => False
  | [_; kw] => kw <> u "optional" /\ kw <> u "recommended"
  | _ => True
  end.

(** No line boundary occurs in [s]. *)
Definition no_linebreak (s : str) : Prop :=
  Forall (fun c => is_linebreak c = false) s.

(** The state once the effects [evs] are added to the trace. *)
Definition record (st : state) (evs : list event) : state :=
  {| files := files st; trace := trace st ++ evs |}.

(** The request a fetch of [url] makes: none in a dry run. *)
Definition fetch_events (self : HomebrewContext) (url : str) : list event :=
  if dry_run self then [] else [EvUrlopen (artifact_request url)].

(** The last two calls of [update_formula] outside a dry run. *)
Definition persist (rt : Runtime) (path text : str) : IO unit :=
  (let! _ := mkdir_parents rt (Formula_disk_dir rt) in
   write_text rt path text)%io.

(** [fetch_and_hash] raises on [url]. *)
Definition fetch_raises (rt : Runtime) (self : HomebrewContext) (url : str)
  : Prop :=
  exists e st st', fetch_and_hash rt self url st = (Raise e, st').

(** The four target triples, in the order [update_formula] uses them. *)
Definition triples : list str :=
  [ u "aarch64-apple-darwin"; u "x86_64-apple-darwin";
    u "aarch64-unknown-linux-musl"; u "x86_64-unknown-linux-musl" ].

(** A formula like [sample_formula []] with another description. *)
Definition sample_formula_desc (d : str) : Formula :=
  {| repo := u "acme/my-cool-tool";
     homepage := u "https://example.org/tool";
     desc := d;
     license := u "MIT";
     bins := [u "tool"];
     mans := [];
     deps := [];
     completions := [];
     archive_fmt := u "{name}-{arch}.{ext}";
     linux_ext := u "tar.xz";
     darwin_ext := u "tar.xz" |}.

Definition sample_archive (n : str) : Archive :=
  {| url := u "https://example.org/" ++ n; sha256 := u "00" |}.

Definition sample_archives : Archives :=
  {| mac_aarch64 := sample_archive (u "a");
     mac_x86_64 := sample_archive (u "b");
     linux_aarch64 := sample_archive (u "c");
     linux_x86_64 := sample_archive (u "d") |}.

Definition sample_client : GithubClient :=
  {| server_url := u "https://api.github.com"; token := u "secret" |}.

(** The request of a release query. *)
Definition is_release_query (ev : event) : Prop :=
  exists client owner repo', ev = EvUrlopen (release_request client owner repo').

(** An [urlopen], whatever its request. *)
Definition is_urlopen (ev : event) : Prop :=
  exists req, ev = EvUrlopen req.

(** From [st] to [st'] the files are kept and the trace grows by events
    that satisfy [P]. *)
Definition only_adds (P : event -> Prop) (st st' : state) : Prop :=
  files st' = files st
  /\ exists evs, trace st' = trace st ++ evs /\ Forall P evs.

(** A formula like [sample_formula []] for the repository [r]. *)
Definition sample_formula_repo (r : str) : Formula :=
  {| repo := r;
     homepage := u "https://example.org/tool";
     desc := u "A tool";
     license := u "MIT";
     bins := [u "tool"];
     mans := [];
     deps := [];
     completions := [];
     archive_fmt := u "{name}-{arch}.{ext}";
     linux_ext := u "tar.xz";
     darwin_ext := u "tar.xz" |}.

(** A release index that answers [status] with [payload] as its parsed
    body, whatever the request. *)
Definition payload_runtime (status' : Z) (payload : json) : Runtime :=
  {| urlopen := fun _ => OK {| status := status'; body := [] |};
     utf8_encode := sample_utf8_encode;
     utf8_decode := sample_decode;
     sha256_hexdigest := sample_digest;
     json_loads := fun _ => OK payload;
     str_format := sample_format_from None;
     str_repr := sample_repr;
     re_word := ascii_word;
     str_capitalize := ascii_capitalize;
     tap_dir := u "/tap";
     fs_mkdir := fun _ => None;
     fs_write := fun _ _ => None |}.

(* ===================================================================== *)
(** * Checks of the embedding on concrete inputs *)
(* ===================================================================== *)

Example splitlines_example :
  str_splitlines (u "ab" ++ [nl] ++ [cr; nl] ++ u "c" ++ [nl])
  = [u "ab"; []; u "c"].
Proof. reflexivity. Qed.

Example str_of_int_example :
  str_of_int 204 = u "204" /\ str_of_int 0 = u "0"
  /\ str_of_int (-15) = u "-15" /\ str_of_int 1000 = u "1000".
Proof. repeat split; reflexivity. Qed.

Example split_strip_rfind_example :
  str_split 35 (u "a#b#") = [u "a"; u "b"; []]
  /\ str_strip (u "  a b  ") = u "a b"
  /\ str_rfind 46 (u "a.b.c") = 3%Z.
Proof. repeat split; reflexivity. Qed.

Example to_pascal_case_example :
  to_pascal_case (sample_runtime (sample_net [] all_ok)) (u "my-cool-tool")
  = u "MyCoolTool".
Proof. reflexivity. Qed.

Example splitext_example :
  os_path_splitext (u "a/b.c/tool.fish") = (u "a/b.c/tool", u ".fish")
  /\ os_path_splitext (u "dir.d/_tool") = (u "dir.d/_tool", [])
  /\ os_path_splitext (u "..bashrc") = (u "..bashrc", [])
  /\ os_path_splitext (u "tool.") = (u "tool", u ".").
Proof. repeat split; reflexivity. Qed.

Example package_artifact_url_example :
  package_artifact_url (sample_runtime (sample_net [] all_ok))
    (sample_ctx false [] (u "1.3.0")) (u "x86_64-apple-darwin")
  = OK (sample_url (u "1.3.0") (u "x86_64-apple-darwin")).
Proof. reflexivity. Qed.

(* ===================================================================== *)
(** * Lemmas on the [str] methods *)
(* ===================================================================== *)

Lemma str_eqb_true (a b : str) : str_eqb a b = true <-> a = b.
Proof. unfold str_eqb. apply bool_decide_eq_true. Qed.

Lemma str_eqb_false (a b : str) : str_eqb a b = false <-> a <> b.
Proof. unfold str_eqb. apply bool_decide_eq_false. Qed.

Lemma str_eqb_refl (a : str) : str_eqb a a = true.
Proof. now apply str_eqb_true. Qed.

Lemma str_split_nonempty sep s : str_split sep s <> [].
Proof.
  destruct s as [|c t]; simpl; [discriminate|].
  destruct (c =? sep); [discriminate|].
  destruct (str_split sep t); discriminate.
Qed.

Lemma str_split_no_sep sep s : ~ In sep s -> str_split sep s = [s].
Proof.
  induction s as [|c t IH]; intros Hn; simpl; [reflexivity|].
  destruct (N.eqb_spec c sep) as [->|Hne].
  - exfalso. apply Hn. now left.
  - rewrite IH; [reflexivity|]. intros Hin. apply Hn. now right.
Qed.

Lemma str_split_app sep a b :
  ~ In sep a -> str_split sep (a ++ sep :: b) = a :: str_split sep b.
Proof.
  induction a as [|c t IH]; intros Hn; simpl.
  - now rewrite N.eqb_refl.
  - destruct (N.eqb_spec c sep) as [->|Hne].
    + exfalso. apply Hn. now left.
    + rewrite IH; [reflexivity|]. intros Hin. apply Hn. now right.
Qed.

Lemma str_split_sep_length sep s :
  In sep s -> (2 <= length (str_split sep s))%nat.
Proof.
  induction s as [|c t IH]; intros Hin; [destruct Hin|].
  simpl. destruct (N.eqb_spec c sep) as [->|Hne].
  - simpl. pose proof (str_split_nonempty sep t).
    destruct (str_split sep t); [congruence|simpl; lia].
  - destruct Hin as [E|Hin]; [congruence|].
    specialize (IH Hin). destruct (str_split sep t); simpl in *; lia.
Qed.

(** The first occurrence of a character. *)
Lemma in_first_occurrence (c : N) (s : str) :
  In c s -> exists a b, s = a ++ c :: b /\ ~ In c a.
Proof.
  induction s as [|x t IH]; intros Hin; [destruct Hin|].
  destruct (N.eq_dec x c) as [->|Hne].
  - exists [], t. split; [reflexivity|]. intros [].
  - destruct Hin as [E|Hin]; [congruence|].
    destruct (IH Hin) as (a & b & -> & Hna).
    exists (x :: a), b. split; [reflexivity|].
    intros [E|Hi]; [congruence|contradiction].
Qed.

(** A string with a separator in it splits into three parts or more as
    soon as a second separator follows. *)
Lemma str_split_two_seps sep a b :
  In sep a \/ In sep b ->
  (3 <= length (str_split sep (a ++ sep :: b)))%nat.
Proof.
  intros [Ha|Hb].
  - destruct (in_first_occurrence _ _ Ha) as (a1 & a2 & -> & Hn).
    rewrite <- app_assoc. simpl. rewrite str_split_app by assumption.
    simpl. assert (In sep (a2 ++ sep :: b)) as Hin
      by (apply in_or_app; right; now left).
    pose proof (str_split_sep_length _ _ Hin). lia.
  - destruct (in_dec N.eq_dec sep a) as [Ha|Hna].
    + destruct (in_first_occurrence _ _ Ha) as (a1 & a2 & -> & Hn).
      rewrite <- app_assoc. simpl. rewrite str_split_app by assumption.
      simpl. assert (In sep (a2 ++ sep :: b)) as Hin
        by (apply in_or_app; right; now left).
      pose proof (str_split_sep_length _ _ Hin). lia.
    + rewrite str_split_app by assumption. simpl.
      pose proof (str_split_sep_length _ _ Hb). lia.
Qed.

Lemma str_lstrip_decompose (c : N) (s : str) :
  exists n, s = repeat c n ++ str_lstrip [c] s
            /\ str_startswith [c] (str_lstrip [c] s) = false.
Proof.
  induction s as [|x t IH].
  - exists 0%nat. split; reflexivity.
  - simpl. unfold char_in. simpl. rewrite orb_false_r.
    destruct (N.eqb_spec x c) as [->|Hne].
    + destruct IH as (n & Heq & Hs). exists (S n). split; [|exact Hs].
      simpl. now rewrite <- Heq.
    + exists 0%nat. split; [reflexivity|]. simpl.
      rewrite andb_true_r. apply N.eqb_neq. congruence.
Qed.

(* ===================================================================== *)
(** * Dependency declarations *)
(* ===================================================================== *)

Lemma format_dep_bare rt name :
  ~ In 35 name -> format_dep rt name = OK ([dq] ++ name ++ [dq]).
Proof.
  intros Hn. unfold format_dep. now rewrite str_split_no_sep.
Qed.

Lemma format_dep_keyword rt name kw :
  ~ In 35 name -> ~ In 35 kw ->
  format_dep rt (name ++ u "#" ++ kw)
  = if str_eqb kw (u "optional") then
      OK ([dq] ++ name ++ [dq] ++ u " => :optional")
    else if str_eqb kw (u "recommended") then
      OK ([dq] ++ name ++ [dq] ++ u " => :recommended")
    else
      Raise (ValueError (u "Unknown dependency keyword " ++ str_repr rt kw
                           ++ u ". Use 'optional' or 'recommended'")).
Proof.
  intros Hn Hk. unfold format_dep.
  change (name ++ u "#" ++ kw) with (name ++ 35 :: kw).
  rewrite str_split_app by assumption.
  rewrite str_split_no_sep by assumption. reflexivity.
Qed.

Lemma format_dep_three_parts rt dep :
  (3 <= length (str_split 35 dep))%nat ->
  exists msg, format_dep rt dep = Raise (ValueError msg).
Proof.
  intros Hlen. unfold format_dep.
  destruct (str_split 35 dep) as [|p1 [|p2 [|p3 ps]]]; simpl in Hlen;
    try lia.
  eexists. reflexivity.
Qed.

Lemma format_dep_unknown_keyword rt name kw :
  kw <> u "optional" -> kw <> u "recommended" ->
  exists msg, format_dep rt (name ++ u "#" ++ kw) = Raise (ValueError msg).
Proof.
  intros Ho Hr.
  destruct (in_dec N.eq_dec 35 name) as [Hin|Hn].
  { apply format_dep_three_parts.
    apply (str_split_two_seps 35 name kw). now left. }
  destruct (in_dec N.eq_dec 35 kw) as [Hik|Hk].
  { apply format_dep_three_parts.
    apply (str_split_two_seps 35 name kw). now right. }
  rewrite format_dep_keyword by assumption.
  apply str_eqb_false in Ho. apply str_eqb_false in Hr.
  rewrite Ho, Hr. eexists. reflexivity.
Qed.

(** C8.  A dependency [name] without [#] renders as the quoted name;
    [name#optional] and [name#recommended] render as the quoted name
    followed by [=> :optional] and [=> :recommended]; a declaration ending
    in [#kw] for any other keyword [kw] raises a [ValueError] (the
    configuration error of the specification). *)
Theorem format_dep_cases rt name kw :
  ~ In 35 name ->
  kw <> u "optional" -> kw <> u "recommended" ->
  format_dep rt name = OK ([dq] ++ name ++ [dq])
  /\ format_dep rt (name ++ u "#optional")
     = OK ([dq] ++ name ++ [dq] ++ u " => :optional")
  /\ format_dep rt (name ++ u "#recommended")
     = OK ([dq] ++ name ++ [dq] ++ u " => :recommended")
  /\ forall prefix, exists msg,
       format_dep rt (prefix ++ u "#" ++ kw) = Raise (ValueError msg).
Proof.
  intros Hn Ho Hr. split; [now apply format_dep_bare|].
  split.
  { change (u "#optional") with (u "#" ++ u "optional").
    rewrite format_dep_keyword; [reflexivity|assumption|].
    vm_compute. intuition discriminate. }
  split.
  { change (u "#recommended") with (u "#" ++ u "recommended").
    rewrite format_dep_keyword; [reflexivity|assumption|].
    vm_compute. intuition discriminate. }
  intros prefix. now apply format_dep_unknown_keyword.
Qed.

Lemma format_dep_cases_witness :
  let rt := sample_runtime (sample_net [] all_ok) in
  format_dep rt (u "foo") = OK ([dq] ++ u "foo" ++ [dq])
  /\ format_dep rt (u "foo#optional")
     = OK ([dq] ++ u "foo" ++ [dq] ++ u " => :optional")
  /\ format_dep rt (u "foo#recommended")
     = OK ([dq] ++ u "foo" ++ [dq] ++ u " => :recommended")
  /\ exists msg, format_dep rt (u "foo#bogus") = Raise (ValueError msg).
Proof.
  intros rt.
  assert (~ In 35 (u "foo")) as Hn by (vm_compute; intuition discriminate).
  assert (u "bogus" <> u "optional") as Ho by (vm_compute; discriminate).
  assert (u "bogus" <> u "recommended") as Hr by (vm_compute; discriminate).
  destruct (format_dep_cases rt (u "foo") (u "bogus") Hn Ho Hr)
    as (H1 & H2 & H3 & H4).
  repeat split; try assumption. exact (H4 (u "foo")).
Defined.

Lemma malformed_dep_raises rt dep :
  malformed_dep dep -> exists msg, format_dep rt dep = Raise (ValueError msg).
Proof.
  unfold malformed_dep, format_dep.
  pose proof (str_split_nonempty 35 dep) as Hne.
  destruct (str_split 35 dep) as [|p1 [|p2 [|p3 ps]]];
    try congruence; intros H; try (now destruct H); simpl.
  - destruct H as [Ho Hr].
    apply str_eqb_false in Ho. apply str_eqb_false in Hr.
    rewrite Ho, Hr. eexists. reflexivity.
  - eexists. reflexivity.
Qed.

(* ===================================================================== *)
(** * Release resolution *)
(* ===================================================================== *)

Lemma bytes_call_decode rt b : bytes_call rt b (u "decode") = utf8_decode rt b.
Proof. unfold bytes_call. now rewrite str_eqb_refl. Qed.

Lemma bytes_call_decude rt b :
  bytes_call rt b (u "decude")
  = Raise (AttributeError (u "'bytes' object has no attribute 'decude'")).
Proof. reflexivity. Qed.

Lemma get_latest_release_version_tag rt self owner repo st resp text release t :
  urlopen rt (release_request self owner repo) = OK resp ->
  status resp = 200%Z ->
  utf8_decode rt (body resp) = OK text ->
  json_loads rt text = OK release ->
  json_getitem release (u "tag_name") = OK (JStr t) ->
  get_latest_release_version rt self owner repo st
  = (OK (Some (str_lstrip (u "v") t)),
     {| files := files st;
        trace := trace st ++ [EvUrlopen (release_request self owner repo)] |}).
Proof.
  intros Hnet Hst Hdec Hjson Htag.
  unfold get_latest_release_version, urlopen_io, bindIO, emit, liftR.
  rewrite Hnet, Hst. simpl.
  rewrite bytes_call_decode, Hdec, Hjson, Htag. reflexivity.
Qed.

(** C3, as the code has it.  When the release index answers 200 with a
    payload whose [tag_name] is the string [t], the resolved version is
    [t] without all of its leading [v] characters: [t] is some number of
    [v]s followed by the version, the version does not start with [v],
    and nothing else is removed.  The only effect is the release query. *)
Theorem release_version_strips_all_leading_v
    rt self owner repo st resp text release t :
  urlopen rt (release_request self owner repo) = OK resp ->
  status resp = 200%Z ->
  utf8_decode rt (body resp) = OK text ->
  json_loads rt text = OK release ->
  json_getitem release (u "tag_name") = OK (JStr t) ->
  exists n v,
    get_latest_release_version rt self owner repo st
    = (OK (Some v),
       {| files := files st;
          trace := trace st
                     ++ [EvUrlopen (release_request self owner repo)] |})
    /\ t = repeat 118 n ++ v
    /\ str_startswith (u "v") v = false.
Proof.
  intros Hnet Hst Hdec Hjson Htag.
  destruct (str_lstrip_decompose 118 t) as (n & Heq & Hv).
  exists n, (str_lstrip (u "v") t). split; [|split].
  - now apply get_latest_release_version_tag with (resp := resp)
      (text := text) (release := release).
  - exact Heq.
  - exact Hv.
Qed.

Lemma release_version_strips_all_leading_v_witness :
  exists n v,
    get_latest_release_version
      (sample_runtime (sample_net (u "v1.2.3") all_ok)) sample_client
      (u "acme") (u "tool") empty_state
    = (OK (Some v),
       {| files := files empty_state;
          trace := trace empty_state
                     ++ [EvUrlopen (release_request sample_client (u "acme")
                                      (u "tool"))] |})
    /\ u "v1.2.3" = repeat 118 n ++ v
    /\ str_startswith (u "v") v = false.
Proof.
  apply (release_version_strips_all_leading_v
           (sample_runtime (sample_net (u "v1.2.3") all_ok)) sample_client
           (u "acme") (u "tool") empty_state
           {| status := 200; body := sample_encode (u "v1.2.3") |}
           (u "v1.2.3") (JObj [(u "tag_name", JStr (u "v1.2.3"))])
           (u "v1.2.3")); reflexivity.
Defined.

(** C3, as stated, fails: for the tags [vv1.0] and [version1] the code
    resolves [1.0] and [ersion1], where removing one leading [v] gives
    [v1.0] (and the claim's own examples name [v1.0] and [version1]). *)
Lemma release_version_single_v_counterexample :
  fst (get_latest_release_version
         (sample_runtime (sample_net (u "vv1.0") all_ok)) sample_client
         (u "acme") (u "tool") empty_state)
  = OK (Some (u "1.0"))
  /\ spec_strip_one_leading_v (u "vv1.0") = u "v1.0"
  /\ u "1.0" <> u "v1.0"
  /\ fst (get_latest_release_version
            (sample_runtime (sample_net (u "version1") all_ok)) sample_client
            (u "acme") (u "tool") empty_state)
     = OK (Some (u "ersion1"))
  /\ u "ersion1" <> u "version1".
Proof.
  repeat split; try reflexivity; vm_compute; discriminate.
Qed.

(* ===================================================================== *)
(** * Reading the declared version *)
(* ===================================================================== *)

Lemma find_none_iff {A} (p : A -> bool) (l : list A) :
  List.find p l = None <-> forall x, In x l -> p x = false.
Proof.
  split; [apply find_none|].
  induction l as [|a l IH]; intros H; simpl; [reflexivity|].
  rewrite (H a (or_introl eq_refl)). apply IH.
  intros x Hx. apply H. now right.
Qed.

Lemma next_version_line_none lines :
  (forall line, In line lines ->
     str_startswith (u "version") (str_strip line) = false) ->
  next_version_line lines = Raise StopIteration.
Proof.
  intros H. unfold next_version_line.
  now rewrite (proj2 (find_none_iff _ lines) H).
Qed.

(** Reading the declared version leaves the state as it is. *)
Lemma formula_version_state rt self st :
  snd (Formula_formula_version rt self st) = st.
Proof.
  unfold Formula_formula_version, bindIO, liftR, path_exists, read_text, ret.
  destruct (Formula_disk_path rt self) as [p|e]; simpl; [|reflexivity].
  destruct (files st !! p) as [text|] eqn:E; simpl; [|reflexivity].
  rewrite E. now destruct (version_of_text text).
Qed.

Lemma formula_version_missing rt self st p :
  Formula_disk_path rt self = OK p -> files st !! p = None ->
  Formula_formula_version rt self st = (OK None, st).
Proof.
  intros Hp Hf.
  unfold Formula_formula_version, bindIO, liftR, path_exists, ret.
  rewrite Hp. simpl. now rewrite Hf.
Qed.

Lemma formula_version_present rt self st p text :
  Formula_disk_path rt self = OK p -> files st !! p = Some text ->
  Formula_formula_version rt self st
  = (match version_of_text text with
     | OK v => OK (Some v)
     | Raise e => Raise e
     end, st).
Proof.
  intros Hp Hf.
  unfold Formula_formula_version, bindIO, liftR, path_exists, read_text, ret.
  rewrite Hp. simpl. rewrite Hf. simpl. rewrite Hf.
  now destruct (version_of_text text).
Qed.

(** C10.  When the formula file exists and none of its lines, once
    stripped, starts with [version], [formula_version] raises
    [StopIteration]; it returns [None] exactly when the file does not
    exist. *)
Theorem formula_version_without_version_line rt self st p :
  Formula_disk_path rt self = OK p ->
  (forall content,
     files st !! p = Some content ->
     (forall line, In line (str_splitlines content) ->
        str_startswith (u "version") (str_strip line) = false) ->
     Formula_formula_version rt self st = (Raise StopIteration, st))
  /\ (fst (Formula_formula_version rt self st) = OK None
      <-> files st !! p = None).
Proof.
  intros Hp. split.
  - intros content Hf Hlines.
    rewrite (formula_version_present _ _ _ _ _ Hp Hf).
    unfold version_of_text. now rewrite (next_version_line_none _ Hlines).
  - split.
    + intros Hnone. destruct (files st !! p) as [text|] eqn:Hf;
        [|reflexivity].
      rewrite (formula_version_present _ _ _ _ _ Hp Hf) in Hnone.
      simpl in Hnone. destruct (version_of_text text); discriminate.
    + intros Hf. now rewrite (formula_version_missing _ _ _ _ Hp Hf).
Qed.

Lemma formula_version_without_version_line_witness :
  let rt := sample_runtime (sample_net [] all_ok) in
  let st :=
    {| files :=
         {[ sample_path :=
              u "class MyCoolTool < Formula" ++ [nl] ++ u "end" ++ [nl] ]};
       trace := [] |} in
  Formula_formula_version rt (sample_formula []) st = (Raise StopIteration, st)
  /\ (fst (Formula_formula_version rt (sample_formula []) empty_state)
      = OK None
      <-> files empty_state !! sample_path = None).
Proof.
  intros rt st. split.
  - refine (proj1 (formula_version_without_version_line rt
                     (sample_formula []) st sample_path eq_refl) _ _ _).
    + reflexivity.
    + vm_compute. intros line [<-|[<-|[]]]; reflexivity.
  - exact (proj2 (formula_version_without_version_line rt
                    (sample_formula []) empty_state sample_path eq_refl)).
Defined.

(* ===================================================================== *)
(** * The up-to-date short-circuit *)
(* ===================================================================== *)

(** The release query adds its one request to the trace, whatever its
    outcome, and touches no file. *)
Lemma get_latest_release_version_state rt self owner repo st :
  snd (get_latest_release_version rt self owner repo st)
  = {| files := files st;
       trace := trace st ++ [EvUrlopen (release_request self owner repo)] |}.
Proof.
  unfold get_latest_release_version, urlopen_io, bindIO, emit, liftR, raise,
    ret. simpl.
  destruct (urlopen rt (release_request self owner repo)) as [resp|e];
    [|reflexivity].
  destruct (negb (status resp =? 200)%Z).
  - now destruct (bytes_call rt (body resp) (u "decode")).
  - destruct (bytes_call rt (body resp) (u "decode")) as [text|e];
      [|reflexivity].
    destruct (json_loads rt text) as [release|e]; [|reflexivity].
    destruct (json_getitem release (u "tag_name")) as [tag|[]];
      try reflexivity.
    now destruct (json_lstrip tag (u "v")).
Qed.

Lemma github_version_resolved rt self token' st v st1 :
  Formula_github_version rt self token' st = (OK (Some v), st1) ->
  exists org name,
    Formula_org self = OK org /\ Formula_name self = OK name
    /\ st1 = {| files := files st;
                trace :=
                  trace st
                    ++ [EvUrlopen
                          (release_request
                             {| server_url := u "https://api.github.com";
                                token := token' |} org name)] |}.
Proof.
  unfold Formula_github_version, bindIO, liftR. intros H.
  destruct (Formula_org self) as [org|e]; [|discriminate].
  destruct (Formula_name self) as [name|e]; [|discriminate].
  exists org, name. repeat split.
  rewrite <- (get_latest_release_version_state rt _ org name st).
  now rewrite H.
Qed.

Lemma HomebrewContext_init_up_to_date rt self v dry st :
  fst (Formula_formula_version rt self st) = OK (Some v) ->
  HomebrewContext_init rt self v dry st = (Raise VersionUpToDate, st).
Proof.
  intros H. unfold HomebrewContext_init, bindIO, raise.
  pose proof (formula_version_state rt self st) as Hst.
  destruct (Formula_formula_version rt self st) as [r s']. simpl in *.
  subst. now rewrite bool_decide_eq_true_2.
Qed.

Lemma HomebrewContext_init_stale rt self v dry st declared :
  fst (Formula_formula_version rt self st) = OK declared ->
  declared <> Some v ->
  HomebrewContext_init rt self v dry st
  = (OK {| dry_run := dry; formula := self; new_version := v |}, st).
Proof.
  intros H Hne. unfold HomebrewContext_init, bindIO, ret.
  pose proof (formula_version_state rt self st) as Hst.
  destruct (Formula_formula_version rt self st) as [r s']. simpl in *.
  subst. now rewrite bool_decide_eq_false_2.
Qed.

(** C1.  When the release index resolves the version [v] and the formula
    file declares [v], [HomebrewContext] raises [VersionUpToDate] without
    any effect, and the turn of the loop ends with [bumped] as it was:
    the files are those it started with and the only request made is the
    release query, so no artifact is fetched and nothing is written. *)
Theorem up_to_date_is_noop rt dry token' bumped self st st1 v :
  Formula_github_version rt self token' st = (OK (Some v), st1) ->
  fst (Formula_formula_version rt self st1) = OK (Some v) ->
  HomebrewContext_init rt self v dry st1 = (Raise VersionUpToDate, st1)
  /\ update_tap_step rt dry token' bumped self st = (OK bumped, st1)
  /\ files st1 = files st
  /\ exists org name,
       Formula_org self = OK org /\ Formula_name self = OK name
       /\ trace st1
          = trace st
              ++ [EvUrlopen
                    (release_request
                       {| server_url := u "https://api.github.com";
                          token := token' |} org name)].
Proof.
  intros Hgh Hfv.
  pose proof (HomebrewContext_init_up_to_date rt self v dry st1 Hfv) as Hinit.
  destruct (github_version_resolved _ _ _ _ _ _ Hgh)
    as (org & name & Horg & Hname & Hst1).
  split; [exact Hinit|]. split.
  - unfold update_tap_step, bindIO, liftR. rewrite Hname, Hgh.
    now rewrite Hinit.
  - split; [now subst st1|]. exists org, name. now subst st1.
Qed.

Lemma up_to_date_is_noop_witness :
  let rt := sample_runtime (sample_net (u "v1.3.0") all_ok) in
  let st := state_declaring (u "1.3.0") in
  let req :=
    release_request
      {| server_url := u "https://api.github.com"; token := u "secret" |}
      (u "acme") (u "my-cool-tool") in
  let st1 := {| files := files st; trace := [EvUrlopen req] |} in
  update_tap_step rt false (u "secret") [] (sample_formula []) st
  = (OK [], st1).
Proof.
  intros rt st req st1.
  exact (proj1 (proj2 (up_to_date_is_noop rt false (u "secret") []
                         (sample_formula []) st st1 (u "1.3.0")
                         eq_refl eq_refl))).
Defined.

(* ===================================================================== *)
(** * Fetching and updating *)
(* ===================================================================== *)

Lemma record_nil st : record st [] = st.
Proof. destruct st. unfold record. simpl. now rewrite app_nil_r. Qed.

Lemma record_record st a b : record (record st a) b = record st (a ++ b).
Proof. unfold record. simpl. now rewrite app_assoc. Qed.

(** The outcome of [get_archive] does not depend on the state, and its
    only effect is the request of the fetch. *)
Lemma get_archive_run rt self url' st :
  get_archive rt self url' st
  = (fst (get_archive rt self url' empty_state),
     record st (fetch_events self url')).
Proof.
  unfold get_archive, fetch_and_hash, fetch_events, bindIO, urlopen_io,
    emit, liftR, raise, ret, artifact_request.
  destruct (dry_run self); simpl.
  - rewrite record_nil. now destruct (utf8_encode rt url').
  - destruct (urlopen rt _) as [resp|e]; [|reflexivity].
    destruct (negb (status resp =? 200)%Z); simpl; [|reflexivity].
    now destruct (bytes_call rt (body resp) (u "decude")).
Qed.

Lemma get_archive_dry_run rt self url' encoded st :
  dry_run self = true ->
  utf8_encode rt url' = OK encoded ->
  get_archive rt self url' st
  = (OK {| url := url'; sha256 := sha256_hexdigest rt encoded |}, st).
Proof.
  intros Hdry Henc. unfold get_archive, fetch_and_hash, bindIO, liftR, ret.
  now rewrite Hdry, Henc.
Qed.

Lemma fetch_raises_get_archive rt self url' :
  fetch_raises rt self url' ->
  exists e, fst (get_archive rt self url' empty_state) = Raise e.
Proof.
  intros (e & st & st' & H). unfold get_archive, bindIO.
  unfold fetch_and_hash in *.
  destruct (dry_run self).
  - unfold bindIO, liftR, ret in *.
    destruct (utf8_encode rt url'); [discriminate|eexists; reflexivity].
  - unfold bindIO, urlopen_io, emit, liftR, raise, ret in *. simpl in *.
    destruct (urlopen rt _) as [resp|e']; [|eexists; reflexivity].
    destruct (negb (status resp =? 200)%Z); [|discriminate].
    destruct (bytes_call rt (body resp) (u "decude")); eexists; reflexivity.
Qed.

Lemma fetch_events_by_mode self urls :
  concat (List.map (fetch_events self) urls)
  = if dry_run self then []
    else List.map (fun url' => EvUrlopen (artifact_request url')) urls.
Proof.
  unfold fetch_events. destruct (dry_run self);
    induction urls as [|x xs IH]; simpl; try reflexivity; try exact IH.
  now rewrite IH.
Qed.

(** [update_formula] once the four URLs are built: the four fetches run,
    then the first exception among the four results, the rendering and the
    path is raised, or the directory is made and the file written (logged
    only, in a dry run). *)
Lemma update_formula_run rt self st u1 u2 u3 u4 :
  List.map (package_artifact_url rt self) triples
  = [OK u1; OK u2; OK u3; OK u4] ->
  let st4 := record st (concat (List.map (fetch_events self) [u1; u2; u3; u4])) in
  update_formula rt self st
  = match
      (let! a1 := fst (get_archive rt self u1 empty_state) in
       let! a2 := fst (get_archive rt self u2 empty_state) in
       let! a3 := fst (get_archive rt self u3 empty_state) in
       let! a4 := fst (get_archive rt self u4 empty_state) in
       let! text :=
         generate_homebrew_formula rt self
           {| mac_aarch64 := a1; mac_x86_64 := a2;
              linux_aarch64 := a3; linux_x86_64 := a4 |} in
       let! path := Formula_disk_path rt (formula self) in
       OK (path, text))%res
    with
    | Raise e => (Raise e, st4)
    | OK (path, text) =>
        if dry_run self then (OK tt, st4) else persist rt path text st4
    end.
Proof.
  intros Hurls st4. unfold triples in Hurls. simpl in Hurls.
  injection Hurls as H1 H2 H3 H4.
  unfold update_formula, bindIO, liftR, submit, future_result.
  rewrite H1, H2, H3, H4.
  rewrite (get_archive_run rt self u1 st).
  rewrite (get_archive_run rt self u2).
  rewrite (get_archive_run rt self u3).
  rewrite (get_archive_run rt self u4).
  assert (record (record (record (record st (fetch_events self u1))
                            (fetch_events self u2)) (fetch_events self u3))
            (fetch_events self u4) = st4)
    as -> by (unfold st4; rewrite !record_record; simpl;
              now rewrite app_nil_r, !app_assoc).
  unfold liftR.
  destruct (fst (get_archive rt self u1 empty_state)) as [a1|e];
    [|reflexivity].
  destruct (fst (get_archive rt self u2 empty_state)) as [a2|e];
    [|reflexivity].
  destruct (fst (get_archive rt self u3 empty_state)) as [a3|e];
    [|reflexivity].
  destruct (fst (get_archive rt self u4 empty_state)) as [a4|e];
    [|reflexivity].
  simpl.
  destruct (generate_homebrew_formula rt self _) as [text|e]; [|reflexivity].
  simpl.
  destruct (Formula_disk_path rt (formula self)) as [path|e]; [|reflexivity].
  simpl. destruct (dry_run self); reflexivity.
Qed.

Lemma get_archive_raise_fetch_raises rt self url' e :
  fst (get_archive rt self url' empty_state) = Raise e ->
  fetch_raises rt self url'.
Proof.
  unfold get_archive, bindIO, ret. intros H.
  destruct (fetch_and_hash rt self url' empty_state) as [[d|e'] st'] eqn:E;
    [discriminate|].
  now exists e', empty_state, st'.
Qed.

Lemma urlopen_events_of_fetches self urls :
  dry_run self = false ->
  concat (List.map (fetch_events self) urls)
  = List.map (fun url' => EvUrlopen (artifact_request url')) urls.
Proof.
  intros Hdry. unfold fetch_events. rewrite Hdry.
  induction urls as [|x xs IH]; simpl; [reflexivity|]. now rewrite IH.
Qed.

Lemma no_events_in_dry_run self urls :
  dry_run self = true -> concat (List.map (fetch_events self) urls) = [].
Proof.
  intros Hdry. unfold fetch_events. rewrite Hdry.
  induction urls as [|x xs IH]; simpl; [reflexivity|]. exact IH.
Qed.

(** C2.  Once the four URLs are built, if the fetch of any one of them
    raises, [update_formula] raises: the four requests have been made
    (none in a dry run, where a fetch makes no request), the files are
    those it started with and the trace holds neither [mkdir] nor write,
    whatever the other three fetches returned. *)
Theorem failed_fetch_writes_nothing rt self st u1 u2 u3 u4 bad :
  List.map (package_artifact_url rt self) triples
  = [OK u1; OK u2; OK u3; OK u4] ->
  In bad [u1; u2; u3; u4] ->
  fetch_raises rt self bad ->
  exists e st',
    update_formula rt self st = (Raise e, st')
    /\ files st' = files st
    /\ trace st'
       = trace st
           ++ (if dry_run self then []
               else List.map (fun url' => EvUrlopen (artifact_request url'))
                      [u1; u2; u3; u4]).
Proof.
  intros Hurls Hin Hraise.
  destruct (fetch_raises_get_archive _ _ _ Hraise) as (e0 & He0).
  rewrite (update_formula_run _ _ _ _ _ _ _ Hurls).
  rewrite fetch_events_by_mode.
  destruct (fst (get_archive rt self u1 empty_state)) as [a1|e1] eqn:E1;
    [|eexists; eexists; repeat split; reflexivity].
  destruct (fst (get_archive rt self u2 empty_state)) as [a2|e2] eqn:E2;
    [|eexists; eexists; repeat split; reflexivity].
  destruct (fst (get_archive rt self u3 empty_state)) as [a3|e3] eqn:E3;
    [|eexists; eexists; repeat split; reflexivity].
  destruct (fst (get_archive rt self u4 empty_state)) as [a4|e4] eqn:E4;
    [|eexists; eexists; repeat split; reflexivity].
  exfalso. destruct Hin as [<-|[<-|[<-|[<-|[]]]]]; congruence.
Qed.

Lemma failed_fetch_writes_nothing_witness :
  let fails_on_third (url' : str) : Z :=
    if str_eqb url' (sample_url (u "1.3.0") (u "aarch64-unknown-linux-musl"))
    then 204%Z else 200%Z in
  let rt := sample_runtime (sample_net (u "v1.3.0") fails_on_third) in
  let st := state_declaring (u "1.2.0") in
  exists e st',
    update_formula rt (sample_ctx false [] (u "1.3.0")) st = (Raise e, st')
    /\ files st' = files st
    /\ trace st'
       = trace st
           ++ List.map (fun url' => EvUrlopen (artifact_request url'))
                (sample_urls (u "1.3.0")).
Proof.
  intros fails_on_third rt st.
  apply (failed_fetch_writes_nothing rt (sample_ctx false [] (u "1.3.0")) st
           (sample_url (u "1.3.0") (u "aarch64-apple-darwin"))
           (sample_url (u "1.3.0") (u "x86_64-apple-darwin"))
           (sample_url (u "1.3.0") (u "aarch64-unknown-linux-musl"))
           (sample_url (u "1.3.0") (u "x86_64-unknown-linux-musl"))
           (sample_url (u "1.3.0") (u "aarch64-unknown-linux-musl"))
           eq_refl).
  - simpl. right. right. left. reflexivity.
  - eexists. exists empty_state. eexists. vm_compute. reflexivity.
Defined.

(** C4, on the code.  Outside a dry run, a response whose status is not
    200 makes [fetch_and_hash] raise the [AttributeError] of the call of
    [decude] on the body, after the request was made; the [RuntimeError]
    with the message [Failed to fetch archive: HTTP status ...] is never
    raised. *)
Theorem fetch_and_hash_non_200 rt self url' st resp :
  dry_run self = false ->
  urlopen rt (artifact_request url') = OK resp ->
  status resp <> 200%Z ->
  fetch_and_hash rt self url' st
  = (Raise (AttributeError (u "'bytes' object has no attribute 'decude'")),
     record st [EvUrlopen (artifact_request url')])
  /\ fst (fetch_and_hash rt self url' st)
     <> Raise (RuntimeError (u "Failed to fetch archive: HTTP status "
                               ++ str_of_int (status resp))).
Proof.
  intros Hdry Hnet Hst.
  assert (fetch_and_hash rt self url' st
          = (Raise (AttributeError
                      (u "'bytes' object has no attribute 'decude'")),
             record st [EvUrlopen (artifact_request url')])) as E.
  { unfold fetch_and_hash, bindIO, urlopen_io, emit, liftR, raise.
    rewrite Hdry. simpl. fold (artifact_request url'). rewrite Hnet.
    apply Z.eqb_neq in Hst. rewrite Hst. reflexivity. }
  split; [exact E|]. rewrite E. simpl. discriminate.
Qed.

Lemma fetch_and_hash_non_200_witness :
  let rt := sample_runtime (sample_net [] (fun _ => 204%Z)) in
  let target := sample_url (u "1.3.0") (u "x86_64-apple-darwin") in
  fetch_and_hash rt (sample_ctx false [] (u "1.3.0")) target empty_state
  = (Raise (AttributeError (u "'bytes' object has no attribute 'decude'")),
     record empty_state [EvUrlopen (artifact_request target)])
  /\ fst (fetch_and_hash rt (sample_ctx false [] (u "1.3.0")) target
            empty_state)
     <> Raise (RuntimeError (u "Failed to fetch archive: HTTP status 204")).
Proof.
  intros rt target.
  apply (fetch_and_hash_non_200 rt (sample_ctx false [] (u "1.3.0")) target
           empty_state {| status := 204; body := sample_encode (u "archive") |}
           eq_refl eq_refl).
  discriminate.
Defined.

(* ===================================================================== *)
(** * Rendering errors and dry runs *)
(* ===================================================================== *)

Lemma format_dep_raises_ValueError rt dep e :
  format_dep rt dep = Raise e -> exists msg, e = ValueError msg.
Proof.
  unfold format_dep.
  destruct (str_split 35 dep) as [|p1 [|p2 [|p3 ps]]]; simpl; intros H.
  - injection H as <-. eexists. reflexivity.
  - discriminate.
  - destruct (str_eqb p2 (u "optional")); [discriminate|].
    destruct (str_eqb p2 (u "recommended")); [discriminate|].
    injection H as <-. eexists. reflexivity.
  - injection H as <-. eexists. reflexivity.
Qed.

Lemma well_formed_dep_renders rt dep :
  ~ malformed_dep dep -> exists d, format_dep rt dep = OK d.
Proof.
  unfold malformed_dep, format_dep.
  destruct (str_split 35 dep) as [|p1 [|p2 [|p3 ps]]]; simpl; intros H;
    try (exfalso; now apply H).
  - eexists. reflexivity.
  - destruct (str_eqb p2 (u "optional")) eqn:Eo; [eexists; reflexivity|].
    destruct (str_eqb p2 (u "recommended")) eqn:Er; [eexists; reflexivity|].
    exfalso. apply H. split; now apply str_eqb_false.
Qed.

Lemma mapR_ok {A B} (f : A -> result B) xs :
  (forall x, In x xs -> exists y, f x = OK y) -> exists ys, mapR f xs = OK ys.
Proof.
  induction xs as [|x xs IH]; intros H; simpl.
  - eexists. reflexivity.
  - destruct (H x (or_introl eq_refl)) as [y ->].
    destruct IH as [ys ->]; [intros z Hz; apply H; now right|].
    eexists. reflexivity.
Qed.

Lemma mapR_raise {A B} (f : A -> result B) xs x0 e0 :
  In x0 xs -> f x0 = Raise e0 ->
  exists x e, In x xs /\ f x = Raise e /\ mapR f xs = Raise e.
Proof.
  induction xs as [|x xs IH]; intros Hin Hf; [destruct Hin|].
  simpl. destruct (f x) as [y|e] eqn:E.
  - destruct Hin as [->|Hin]; [congruence|].
    destruct (IH Hin Hf) as (x' & e' & Hin' & Hf' & Hm).
    exists x', e'. split; [now right|]. split; [exact Hf'|].
    simpl. now rewrite Hm.
  - exists x, e. split; [now left|]. split; [exact E|reflexivity].
Qed.

Lemma generate_raises_on_malformed_dep rt self archives dep :
  In dep (deps (formula self)) -> malformed_dep dep ->
  exists msg,
    generate_homebrew_formula rt self archives = Raise (ValueError msg).
Proof.
  intros Hin Hbad. destruct (malformed_dep_raises rt dep Hbad) as [msg0 Hd].
  unfold generate_homebrew_formula.
  destruct (mapR_raise
              (fun dep0 =>
                 (let! d := format_dep rt dep0 in
                  OK (u "  depends_on " ++ d))%res)
              (deps (formula self)) dep (ValueError msg0) Hin)
    as (x & e & _ & Hx & Hm); [now rewrite Hd|].
  rewrite Hm. simpl.
  destruct (format_dep rt x) as [d|e'] eqn:E; simpl in Hx; [discriminate|].
  injection Hx as <-.
  destruct (format_dep_raises_ValueError _ _ _ E) as [msg ->].
  now exists msg.
Qed.

Lemma generate_renders rt self archives name :
  Formula_name (formula self) = OK name ->
  (forall dep, In dep (deps (formula self)) -> ~ malformed_dep dep) ->
  exists text, generate_homebrew_formula rt self archives = OK text.
Proof.
  intros Hname Hdeps. unfold generate_homebrew_formula.
  destruct (mapR_ok
              (fun dep0 =>
                 (let! d := format_dep rt dep0 in
                  OK (u "  depends_on " ++ d))%res)
              (deps (formula self))) as [lines ->].
  { intros dep Hin.
    destruct (well_formed_dep_renders rt dep (Hdeps dep Hin)) as [d ->].
    eexists. reflexivity. }
  simpl. rewrite Hname. simpl. eexists. reflexivity.
Qed.

(** C5, as the code has it.  When a dependency of the formula is
    malformed, the four URLs are built and none of the four fetches
    raises, [update_formula] raises the [ValueError] of the rendering
    after the four fetches: their requests are in the trace (none in a dry
    run), and no file is written. *)
Theorem malformed_dep_raises_after_fetches rt self st u1 u2 u3 u4 dep :
  List.map (package_artifact_url rt self) triples
  = [OK u1; OK u2; OK u3; OK u4] ->
  In dep (deps (formula self)) ->
  malformed_dep dep ->
  (forall url', In url' [u1; u2; u3; u4] -> ~ fetch_raises rt self url') ->
  exists msg st',
    update_formula rt self st = (Raise (ValueError msg), st')
    /\ files st' = files st
    /\ trace st'
       = trace st
           ++ (if dry_run self then []
               else List.map (fun url' => EvUrlopen (artifact_request url'))
                      [u1; u2; u3; u4]).
Proof.
  intros Hurls Hin Hbad Hfetch.
  rewrite (update_formula_run _ _ _ _ _ _ _ Hurls).
  assert (concat (List.map (fetch_events self) [u1; u2; u3; u4])
          = if dry_run self then []
            else List.map (fun url' => EvUrlopen (artifact_request url'))
                   [u1; u2; u3; u4]) as ->.
  { destruct (dry_run self) eqn:Hdry.
    - now apply no_events_in_dry_run.
    - now apply urlopen_events_of_fetches. }
  assert (forall url', In url' [u1; u2; u3; u4] ->
            exists a, fst (get_archive rt self url' empty_state) = OK a)
    as Hok.
  { intros url' Hu.
    destruct (fst (get_archive rt self url' empty_state)) as [a|e] eqn:E;
      [now exists a|].
    exfalso. apply (Hfetch url' Hu).
    now apply get_archive_raise_fetch_raises with (e := e). }
  destruct (Hok u1) as [a1 ->]; [simpl; tauto|].
  destruct (Hok u2) as [a2 ->]; [simpl; tauto|].
  destruct (Hok u3) as [a3 ->]; [simpl; tauto|].
  destruct (Hok u4) as [a4 ->]; [simpl; tauto|].
  simpl.
  destruct (generate_raises_on_malformed_dep rt self
              {| mac_aarch64 := a1; mac_x86_64 := a2;
                 linux_aarch64 := a3; linux_x86_64 := a4 |} dep Hin Hbad)
    as [msg ->].
  simpl. exists msg. eexists. repeat split; reflexivity.
Qed.

Lemma malformed_dep_raises_after_fetches_witness :
  let rt := sample_runtime (sample_net (u "v1.3.0") all_ok) in
  let st := state_declaring (u "1.2.0") in
  exists msg st',
    update_formula rt (sample_ctx false [u "foo#bogus"] (u "1.3.0")) st
    = (Raise (ValueError msg), st')
    /\ files st' = files st
    /\ trace st'
       = trace st
           ++ List.map (fun url' => EvUrlopen (artifact_request url'))
                (sample_urls (u "1.3.0")).
Proof.
  intros rt st.
  apply (malformed_dep_raises_after_fetches rt
           (sample_ctx false [u "foo#bogus"] (u "1.3.0")) st _ _ _ _
           (u "foo#bogus") eq_refl).
  - left. reflexivity.
  - vm_compute. split; discriminate.
  - intros url' Hin (e & st0 & st0' & H).
    destruct Hin as [<-|[<-|[<-|[<-|[]]]]]; vm_compute in H; discriminate.
Defined.

(** C5, as stated, fails: with the dependency [foo#bogus] and a network
    that serves every artifact, [update_formula] raises the [ValueError]
    only after the four artifact requests have been made. *)
Lemma malformed_dep_before_fetch_counterexample :
  let rt := sample_runtime (sample_net (u "v1.3.0") all_ok) in
  let st := state_declaring (u "1.2.0") in
  let r :=
    update_formula rt (sample_ctx false [u "foo#bogus"] (u "1.3.0")) st in
  malformed_dep (u "foo#bogus")
  /\ fst r
     = Raise (ValueError (u "Unknown dependency keyword 'bogus'. "
                            ++ u "Use 'optional' or 'recommended'"))
  /\ trace (snd r)
     = List.map (fun url' => EvUrlopen (artifact_request url'))
         (sample_urls (u "1.3.0"))
  /\ trace (snd r) <> trace st.
Proof.
  intros rt st r. split; [vm_compute; split; discriminate|].
  split; [reflexivity|]. split; [reflexivity|].
  vm_compute. discriminate.
Qed.

Lemma disk_path_of_name rt self name :
  Formula_name self = OK name ->
  Formula_disk_path rt self
  = OK (tap_dir rt ++ u "/Formula/" ++ name ++ u ".rb").
Proof. intros H. unfold Formula_disk_path. now rewrite H. Qed.

(** C7, as the code has it.  In a dry run, for a formula whose declared
    version differs from the resolved one, whose four URLs are built and
    encode as UTF-8, and whose dependencies are all well-formed: the
    digest of each URL is the SHA-256 hex digest of the encoded URL
    string, obtained without any effect; [update_formula] changes neither
    the files nor the trace; and the turn of the loop appends the
    formula's name and new version to [bumped], the release query being
    its only request. *)
Theorem dry_run_reports_update
    rt token' bumped self st st1 v declared u1 u2 u3 u4 b1 b2 b3 b4 :
  let ctx := {| dry_run := true; formula := self; new_version := v |} in
  Formula_github_version rt self token' st = (OK (Some v), st1) ->
  fst (Formula_formula_version rt self st1) = OK declared ->
  declared <> Some v ->
  List.map (package_artifact_url rt ctx) triples
  = [OK u1; OK u2; OK u3; OK u4] ->
  List.map (utf8_encode rt) [u1; u2; u3; u4]
  = [OK b1; OK b2; OK b3; OK b4] ->
  (forall dep, In dep (deps self) -> ~ malformed_dep dep) ->
  (forall st0,
     List.map (fun url' => get_archive rt ctx url' st0) [u1; u2; u3; u4]
     = [ (OK {| url := u1; sha256 := sha256_hexdigest rt b1 |}, st0);
         (OK {| url := u2; sha256 := sha256_hexdigest rt b2 |}, st0);
         (OK {| url := u3; sha256 := sha256_hexdigest rt b3 |}, st0);
         (OK {| url := u4; sha256 := sha256_hexdigest rt b4 |}, st0) ])
  /\ update_formula rt ctx st1 = (OK tt, st1)
  /\ files st1 = files st
  /\ exists org name,
       Formula_org self = OK org /\ Formula_name self = OK name
       /\ update_tap_step rt true token' bumped self st
          = (OK (bumped ++ [(name, v)]), st1)
       /\ trace st1
          = trace st
              ++ [EvUrlopen
                    (release_request
                       {| server_url := u "https://api.github.com";
                          token := token' |} org name)].
Proof.
  intros ctx Hgh Hfv Hstale Hurls Henc Hdeps.
  cbn [List.map] in Henc. injection Henc as E1 E2 E3 E4.
  destruct (github_version_resolved _ _ _ _ _ _ Hgh)
    as (org & name & Horg & Hname & Hst1).
  assert (forall st0,
            List.map (fun url' => get_archive rt ctx url' st0)
              [u1; u2; u3; u4]
            = [ (OK {| url := u1; sha256 := sha256_hexdigest rt b1 |}, st0);
                (OK {| url := u2; sha256 := sha256_hexdigest rt b2 |}, st0);
                (OK {| url := u3; sha256 := sha256_hexdigest rt b3 |}, st0);
                (OK {| url := u4; sha256 := sha256_hexdigest rt b4 |}, st0) ])
    as Hdigest.
  { intros st0. cbn [List.map].
    rewrite (get_archive_dry_run rt ctx u1 b1 st0 eq_refl E1).
    rewrite (get_archive_dry_run rt ctx u2 b2 st0 eq_refl E2).
    rewrite (get_archive_dry_run rt ctx u3 b3 st0 eq_refl E3).
    now rewrite (get_archive_dry_run rt ctx u4 b4 st0 eq_refl E4). }
  assert (update_formula rt ctx st1 = (OK tt, st1)) as Hupd.
  { rewrite (update_formula_run _ _ _ _ _ _ _ Hurls).
    rewrite (no_events_in_dry_run ctx) by reflexivity.
    rewrite record_nil.
    rewrite (get_archive_dry_run rt ctx u1 b1 empty_state eq_refl E1).
    rewrite (get_archive_dry_run rt ctx u2 b2 empty_state eq_refl E2).
    rewrite (get_archive_dry_run rt ctx u3 b3 empty_state eq_refl E3).
    rewrite (get_archive_dry_run rt ctx u4 b4 empty_state eq_refl E4).
    cbn [fst bindR].
    destruct (generate_renders rt ctx
                {| mac_aarch64 :=
                     {| url := u1; sha256 := sha256_hexdigest rt b1 |};
                   mac_x86_64 :=
                     {| url := u2; sha256 := sha256_hexdigest rt b2 |};
                   linux_aarch64 :=
                     {| url := u3; sha256 := sha256_hexdigest rt b3 |};
                   linux_x86_64 :=
                     {| url := u4; sha256 := sha256_hexdigest rt b4 |} |}
                name Hname Hdeps) as [text ->].
    cbn [bindR]. change (formula ctx) with self.
    rewrite (disk_path_of_name rt self name Hname).
    reflexivity. }
  split; [exact Hdigest|].
  split; [exact Hupd|]. split; [now subst st1|].
  exists org, name. split; [exact Horg|]. split; [exact Hname|].
  split; [|now subst st1].
  unfold update_tap_step, bindIO, liftR. rewrite Hname, Hgh.
  rewrite (HomebrewContext_init_stale rt self v true st1 declared Hfv Hstale).
  fold ctx. unfold bindIO. rewrite Hupd. reflexivity.
Qed.

Lemma dry_run_reports_update_witness :
  let rt := sample_runtime (sample_net (u "v1.3.0") all_ok) in
  let st := state_declaring (u "1.2.0") in
  let req :=
    release_request
      {| server_url := u "https://api.github.com"; token := u "secret" |}
      (u "acme") (u "my-cool-tool") in
  let st1 := {| files := files st; trace := [EvUrlopen req] |} in
  let ctx := sample_ctx true [u "openssl"; u "git#optional"] (u "1.3.0") in
  let target := sample_url (u "1.3.0") (u "aarch64-apple-darwin") in
  get_archive rt ctx target st
  = (OK {| url := target;
           sha256 := sha256_hexdigest rt (sample_encode target) |}, st)
  /\ update_formula rt ctx st1 = (OK tt, st1)
  /\ update_tap_step rt true (u "secret") []
       (sample_formula [u "openssl"; u "git#optional"]) st
     = (OK [(u "my-cool-tool", u "1.3.0")], st1).
Proof.
  intros rt st req st1 ctx target.
  destruct (dry_run_reports_update rt (u "secret") []
              (sample_formula [u "openssl"; u "git#optional"]) st st1
              (u "1.3.0") (Some (u "1.2.0"))
              (sample_url (u "1.3.0") (u "aarch64-apple-darwin"))
              (sample_url (u "1.3.0") (u "x86_64-apple-darwin"))
              (sample_url (u "1.3.0") (u "aarch64-unknown-linux-musl"))
              (sample_url (u "1.3.0") (u "x86_64-unknown-linux-musl"))
              (sample_encode
                 (sample_url (u "1.3.0") (u "aarch64-apple-darwin")))
              (sample_encode
                 (sample_url (u "1.3.0") (u "x86_64-apple-darwin")))
              (sample_encode
                 (sample_url (u "1.3.0") (u "aarch64-unknown-linux-musl")))
              (sample_encode
                 (sample_url (u "1.3.0") (u "x86_64-unknown-linux-musl")))
              eq_refl eq_refl)
    as (Hdigest & Hupd & _ & org & name & Horg & Hname & Hstep & _).
  - vm_compute. discriminate.
  - reflexivity.
  - reflexivity.
  - intros dep [<-|[<-|[]]]; vm_compute; tauto.
  - split.
    { exact (f_equal (hd (Raise StopIteration, st)) (Hdigest st)). }
    split; [exact Hupd|].
    assert (name = u "my-cool-tool") as ->
      by (vm_compute in Hname; injection Hname as <-; reflexivity).
    exact Hstep.
Defined.

(** C7, as stated, fails: in a dry run the stale formula with the
    dependency [foo#bogus] is not appended to [bumped]; the turn of the
    loop raises the [ValueError] of the rendering.  So does, with the
    error of [encode], the turn for a formula whose resolved version
    holds a surrogate, which makes the URLs unencodable.  The release
    query is made in a dry run too. *)
Lemma dry_run_malformed_dep_counterexample :
  let rt := sample_runtime (sample_net (u "v1.3.0") all_ok) in
  let st := state_declaring (u "1.2.0") in
  fst (Formula_formula_version rt (sample_formula [u "foo#bogus"]) st)
  = OK (Some (u "1.2.0"))
  /\ fst (Formula_github_version rt (sample_formula [u "foo#bogus"])
            (u "secret") st)
     = OK (Some (u "1.3.0"))
  /\ fst (update_tap_step rt true (u "secret") []
            (sample_formula [u "foo#bogus"]) st)
     = Raise (ValueError (u "Unknown dependency keyword 'bogus'. "
                            ++ u "Use 'optional' or 'recommended'"))
  /\ trace (snd (update_tap_step rt true (u "secret") []
                   (sample_formula [u "foo#bogus"]) st))
     = [EvUrlopen
          (release_request
             {| server_url := u "https://api.github.com";
                token := u "secret" |} (u "acme") (u "my-cool-tool"))]
  /\ fst (update_tap_step
            (payload_runtime 200
               (JObj [(u "tag_name", JStr (u "v1.3.0" ++ [55296]))]))
            true (u "secret") [] (sample_formula []) st)
     = Raise (UnicodeError
                (u "'utf-8' codec can't encode: surrogates not allowed")).
Proof.
  intros rt st. repeat split; reflexivity.
Qed.

Example dry_run_scenario :
  let rt := sample_runtime (sample_net (u "v1.3.0") all_ok) in
  let st := state_declaring (u "1.2.0") in
  let r := update_tap_loop rt true (u "secret") []
             [sample_formula [u "openssl"; u "git#optional"]] st in
  fst r = OK [(u "my-cool-tool", u "1.3.0")]
  /\ files (snd r) = files st
  /\ length (trace (snd r)) = 1%nat.
Proof. repeat split; reflexivity. Qed.

(* ===================================================================== *)
(** * The shell of a completion *)
(* ===================================================================== *)

Lemma rfind_from_in c s i :
  In c s -> (0 <= i)%Z -> (i <= rfind_from c s i)%Z.
Proof.
  revert i. induction s as [|x t IH]; intros i Hin Hi; [destruct Hin|].
  simpl. destruct (0 <=? rfind_from c t (i + 1))%Z eqn:Ek.
  - destruct (in_dec N.eq_dec c t) as [Hc|Hc].
    + specialize (IH (i + 1)%Z Hc). lia.
    + destruct Hin as [->|Hin]; [|contradiction].
      clear IH. revert Ek. generalize (i + 1)%Z as j. intros j Ek.
      exfalso. revert j Ek. induction t as [|y t IHt]; intros j Ek.
      * simpl in Ek. discriminate.
      * simpl in Ek.
        assert (~ In c t) as Hct by (intros H; apply Hc; now right).
        destruct (0 <=? rfind_from c t (j + 1))%Z eqn:Ek'.
        -- exact (IHt Hct _ Ek').
        -- destruct (N.eqb_spec y c) as [->|Hne].
           ++ apply Hc. now left.
           ++ discriminate.
  - destruct Hin as [->|Hin].
    + rewrite N.eqb_refl. lia.
    + specialize (IH (i + 1)%Z Hin). apply Z.leb_gt in Ek. lia.
Qed.

Lemma rfind_from_found c s i :
  (0 <= i)%Z -> (0 <= rfind_from c s i)%Z ->
  exists a b,
    s = a ++ c :: b /\ ~ In c b
    /\ rfind_from c s i = (i + Z.of_nat (length a))%Z.
Proof.
  revert i. induction s as [|x t IH]; intros i Hi; simpl; [lia|].
  destruct (0 <=? rfind_from c t (i + 1))%Z eqn:Ek.
  - intros _. apply Z.leb_le in Ek.
    destruct (IH (i + 1)%Z ltac:(lia) Ek) as (a & b & -> & Hb & Heq).
    exists (x :: a), b. split; [reflexivity|]. split; [exact Hb|].
    rewrite Heq. simpl length. lia.
  - destruct (N.eqb_spec x c) as [->|Hne]; [intros _|lia].
    exists [], t. split; [reflexivity|]. split; [|simpl; lia].
    intros Hin. apply Z.leb_gt in Ek.
    pose proof (rfind_from_in c t (i + 1)%Z Hin ltac:(lia)). lia.
Qed.

Lemma rfind_from_lower c s i : (0 <= i)%Z -> (-1 <= rfind_from c s i)%Z.
Proof.
  revert i. induction s as [|x t IH]; intros i Hi; simpl; [lia|].
  specialize (IH (i + 1)%Z ltac:(lia)).
  destruct (0 <=? rfind_from c t (i + 1))%Z; [lia|].
  destruct (x =? c); lia.
Qed.

Lemma splitext_scan_some n p extsep f d r :
  splitext_scan n p extsep f d = Some r ->
  r = (str_prefix p d, str_suffix p d).
Proof.
  revert f. induction n as [|n IH]; intros f H; simpl in H; [discriminate|].
  destruct (negb _); [now injection H as <-|].
  exact (IH _ H).
Qed.

(** The extension [splitext] returns is empty, or the last dot of the path
    and what follows it. *)
Lemma splitext_extension p sep altsep extsep :
  snd (genericpath_splitext p sep altsep extsep) = []
  \/ exists a e,
       p = a ++ extsep :: e /\ ~ In extsep e
       /\ genericpath_splitext p sep altsep extsep = (a, extsep :: e).
Proof.
  unfold genericpath_splitext.
  set (sepIndex := match altsep with
                   | Some a => Z.max (str_rfind sep p) (str_rfind a p)
                   | None => str_rfind sep p
                   end).
  destruct (sepIndex <? str_rfind extsep p)%Z eqn:Elt; [|now left].
  destruct (splitext_scan _ p extsep _ _) as [r|] eqn:Escan; [|now left].
  apply splitext_scan_some in Escan. subst r. right.
  apply Z.ltb_lt in Elt.
  assert (-1 <= sepIndex)%Z as Hsep.
  { assert (forall c, (-1 <= str_rfind c p)%Z) as Hge
      by (intros c; apply rfind_from_lower; lia).
    unfold sepIndex. destruct altsep; [pose proof (Hge sep); lia|apply Hge]. }
  unfold str_rfind in *.
  destruct (rfind_from_found extsep p 0%Z ltac:(lia) ltac:(lia))
    as (a & e & Hp & He & Hk).
  exists a, e. split; [exact Hp|]. split; [exact He|].
  rewrite Hk. unfold str_prefix, str_suffix.
  replace (Z.to_nat (0 + Z.of_nat (length a))) with (length a) by lia.
  rewrite Hp. now rewrite take_app_length, drop_app_length.
Qed.

Lemma str_lstrip_no_occurrence c e : ~ In c e -> str_lstrip [c] e = e.
Proof.
  destruct e as [|x t]; intros H; [reflexivity|].
  simpl. unfold char_in. simpl. rewrite orb_false_r.
  destruct (N.eqb_spec x c) as [->|Hne]; [|reflexivity].
  exfalso. apply H. now left.
Qed.

Lemma rfind_from_not_in c s i : ~ In c s -> rfind_from c s i = (-1)%Z.
Proof.
  revert i. induction s as [|x t IH]; intros i Hn; [reflexivity|].
  cbn [rfind_from]. rewrite IH by (intros H; apply Hn; now right).
  cbn [Z.leb Z.compare].
  destruct (N.eqb_spec x c) as [->|Hne]; [|reflexivity].
  exfalso. apply Hn. now left.
Qed.

Lemma rfind_from_last c a b i :
  ~ In c b -> (0 <= i)%Z ->
  rfind_from c (a ++ c :: b) i = (i + Z.of_nat (length a))%Z.
Proof.
  intros Hb. revert i. induction a as [|x a IH]; intros i Hi.
  - cbn [app rfind_from]. rewrite rfind_from_not_in by assumption.
    cbn [Z.leb Z.compare]. rewrite N.eqb_refl. cbn [length]. lia.
  - cbn [app rfind_from]. rewrite IH by lia.
    replace (0 <=? i + 1 + Z.of_nat (length a))%Z with true
      by (symmetry; apply Z.leb_le; lia).
    cbn [length]. lia.
Qed.

Lemma splitext_scan_finds n p e f d j c rest :
  (f <= j < f + n)%nat ->
  drop j p = c :: rest -> c <> e ->
  splitext_scan n p e (Z.of_nat f) d = Some (str_prefix p d, str_suffix p d).
Proof.
  revert f. induction n as [|n IH]; intros f Hj Hdrop Hc; [lia|].
  cbn [splitext_scan].
  destruct (negb (str_eqb (str_slice p (Z.of_nat f) (Z.of_nat f + 1)) [e]))
    eqn:E; [reflexivity|].
  apply negb_false_iff, str_eqb_true in E.
  assert (j <> f) as Hjf.
  { intros ->. unfold str_slice in E.
    replace (Z.to_nat (Z.of_nat f + 1) - Z.to_nat (Z.of_nat f))%nat
      with 1%nat in E by lia.
    rewrite Nat2Z.id, Hdrop in E. cbn in E. congruence. }
  replace (Z.of_nat f + 1)%Z with (Z.of_nat (S f)) by lia.
  apply IH; [lia|assumption|assumption].
Qed.

Lemma rfind_from_app_not_in c a b i :
  ~ In c b -> rfind_from c (a ++ b) i = rfind_from c a i.
Proof.
  intros Hb. revert i. induction a as [|x a IH]; intros i.
  - cbn [app]. rewrite rfind_from_not_in by assumption. reflexivity.
  - cbn [app rfind_from]. now rewrite IH.
Qed.

Lemma rfind_from_upper c s i :
  (0 <= i)%Z -> (rfind_from c s i < i + Z.of_nat (length s))%Z.
Proof.
  revert i. induction s as [|x t IH]; intros i Hi.
  - cbn [rfind_from length]. lia.
  - cbn [rfind_from length]. specialize (IH (i + 1)%Z ltac:(lia)).
    destruct (0 <=? rfind_from c t (i + 1))%Z; [lia|].
    destruct (x =? c); lia.
Qed.

(** The index of the last slash, for a path cut after it. *)
Lemma rfind_sep_of_dir dir name :
  (dir = [] \/ exists d, dir = d ++ u "/") ->
  ~ In 47 name ->
  rfind_from 47 (dir ++ name) 0 = (Z.of_nat (length dir) - 1)%Z.
Proof.
  intros [->|[d ->]] Hname.
  - cbn [app length]. now rewrite rfind_from_not_in.
  - change (u "/") with [47]. rewrite <- app_assoc. cbn [app].
    rewrite rfind_from_last by (assumption || lia).
    rewrite length_app. cbn [length]. lia.
Qed.

(** A file name [stem.sh] whose stem has a character other than a dot:
    [splitext] cuts at the last dot. *)
Lemma splitext_of_file_name dir s1 c s2 sh :
  (dir = [] \/ exists d, dir = d ++ u "/") ->
  ~ In 47 (s1 ++ c :: s2) -> c <> 46 ->
  ~ In 46 sh -> ~ In 47 sh ->
  os_path_splitext (dir ++ (s1 ++ c :: s2) ++ u "." ++ sh)
  = (dir ++ s1 ++ c :: s2, u "." ++ sh).
Proof.
  intros Hdir Hstem Hc Hdot Hslash.
  set (stem := s1 ++ c :: s2) in *.
  set (path := dir ++ stem ++ u "." ++ sh).
  unfold os_path_splitext, genericpath_splitext, str_rfind.
  assert (path = (dir ++ stem) ++ 46 :: sh) as Hp1
    by (unfold path; now rewrite <- app_assoc).
  assert (rfind_from 46 path 0 = Z.of_nat (length (dir ++ stem))) as Hd
    by (rewrite Hp1, rfind_from_last by (assumption || lia); lia).
  assert (~ In 47 (stem ++ u "." ++ sh)) as Hrest.
  { intros H. apply in_app_or in H. destruct H as [H|[H|H]];
      [now apply Hstem|discriminate|now apply Hslash]. }
  assert (rfind_from 47 path 0 = (Z.of_nat (length dir) - 1)%Z) as Hs
    by now apply rfind_sep_of_dir.
  rewrite Hs, Hd, length_app.
  replace (Z.of_nat (length dir) - 1 <? Z.of_nat (length dir + length stem))%Z
    with true by (symmetry; apply Z.ltb_lt; lia).
  replace (Z.of_nat (length dir) - 1 + 1)%Z with (Z.of_nat (length dir))
    by lia.
  rewrite (splitext_scan_finds _ path 46 (length dir) _
             (length dir + length s1) c (s2 ++ 46 :: sh)).
  - unfold str_prefix, str_suffix. rewrite Nat2Z.id, <- length_app, Hp1.
    now rewrite take_app_length, drop_app_length.
  - unfold stem. rewrite length_app. cbn [length]. lia.
  - unfold path, stem. rewrite <- length_app.
    rewrite <- !app_assoc. rewrite (app_assoc dir s1).
    now rewrite drop_app_length.
  - exact Hc.
Qed.

(** The loop over the leading dots of the file name finds nothing when
    the file name has only dots before its last dot. *)
Lemma splitext_scan_dots n p e f d :
  take n (drop f p) = repeat e n ->
  splitext_scan n p e (Z.of_nat f) d = None.
Proof.
  revert f. induction n as [|n IH]; intros f Hdots; [reflexivity|].
  cbn [splitext_scan].
  destruct (drop f p) as [|x rest] eqn:Edrop; [discriminate|].
  cbn [take repeat] in Hdots. injection Hdots as -> Hrest.
  assert (str_slice p (Z.of_nat f) (Z.of_nat f + 1) = [e]) as ->.
  { unfold str_slice.
    replace (Z.to_nat (Z.of_nat f + 1) - Z.to_nat (Z.of_nat f))%nat
      with 1%nat by lia.
    rewrite Nat2Z.id, Edrop. reflexivity. }
  rewrite str_eqb_refl. cbn [negb].
  replace (Z.of_nat f + 1)%Z with (Z.of_nat (S f)) by lia.
  apply IH.
  replace (drop (S f) p) with rest; [exact Hrest|].
  replace (S f) with (f + 1)%nat by lia.
  rewrite <- drop_drop, Edrop. reflexivity.
Qed.

(** A file name that has no dot, or only dots before its last dot, has
    no extension. *)
Lemma splitext_without_extension dir n rest :
  (dir = [] \/ exists d, dir = d ++ u "/") ->
  ~ In 47 rest -> ~ In 46 rest ->
  os_path_splitext (dir ++ repeat 46 n ++ rest)
  = (dir ++ repeat 46 n ++ rest, []).
Proof.
  intros Hdir Hslash Hdot.
  assert (~ In 47 (repeat 46 n ++ rest)) as Hname.
  { intros H. apply in_app_or in H. destruct H as [H|H]; [|now apply Hslash].
    apply repeat_spec in H. discriminate. }
  unfold os_path_splitext, genericpath_splitext, str_rfind.
  rewrite (rfind_sep_of_dir dir _ Hdir Hname).
  destruct n as [|m].
  - cbn [repeat app]. rewrite rfind_from_app_not_in by assumption.
    pose proof (rfind_from_upper 46 dir 0%Z ltac:(lia)) as Hup.
    replace (Z.of_nat (length dir) - 1 <? rfind_from 46 dir 0)%Z with false
      by (symmetry; apply Z.ltb_ge; lia).
    reflexivity.
  - assert (repeat 46 (S m) = repeat 46 m ++ [46]) as Hsnoc
      by (rewrite <- repeat_cons; reflexivity).
    assert (dir ++ repeat 46 (S m) ++ rest
            = (dir ++ repeat 46 m) ++ 46 :: rest) as Hp
      by (rewrite Hsnoc, <- !app_assoc; reflexivity).
    assert (rfind_from 46 (dir ++ repeat 46 (S m) ++ rest) 0
            = Z.of_nat (length dir + m)) as Hd.
    { rewrite Hp, rfind_from_last by (assumption || lia).
      rewrite length_app, repeat_length. lia. }
    rewrite Hd.
    replace (Z.of_nat (length dir) - 1 <? Z.of_nat (length dir + m))%Z
      with true by (symmetry; apply Z.ltb_lt; lia).
    replace (Z.of_nat (length dir) - 1 + 1)%Z with (Z.of_nat (length dir))
      by lia.
    replace (Z.to_nat (Z.of_nat (length dir + m) - Z.of_nat (length dir)))
      with m by lia.
    rewrite splitext_scan_dots; [reflexivity|].
    rewrite drop_app_length, Hsnoc, <- app_assoc.
    rewrite take_app_length'; [reflexivity|symmetry; apply repeat_length].
Qed.

Lemma Completion_parse_shell_ext p root sh :
  os_path_splitext p = (root, u "." ++ sh) -> ~ In 46 sh ->
  shell (Completion_parse p) = sh.
Proof.
  intros Hsplit Hdot. unfold Completion_parse. rewrite Hsplit.
  change (u "." ++ sh) with (46 :: sh). cbn [shell].
  cbn [str_lstrip]. unfold char_in. cbn [existsb u List.map
    list_ascii_of_string].
  change (N_of_ascii "."%char) with 46. rewrite N.eqb_refl. cbn [orb].
  now apply str_lstrip_no_occurrence.
Qed.

Lemma Completion_parse_shell_default p root :
  os_path_splitext p = (root, []) -> shell (Completion_parse p) = u "zsh".
Proof. intros Hsplit. unfold Completion_parse. now rewrite Hsplit. Qed.

(** Every string is cut at the last occurrence of a character, if it has
    one. *)
Lemma cut_at_last (c : N) (s : str) :
  ~ In c s \/ exists a b, s = a ++ c :: b /\ ~ In c b.
Proof.
  induction s as [|x t IH]; [left; intros []|].
  destruct IH as [Hnot|(a & b & -> & Hb)].
  - destruct (N.eq_dec x c) as [->|Hne].
    + right. exists [], t. now split.
    + left. intros [H|H]; [now apply Hne|now apply Hnot].
  - right. exists (x :: a), b. now split.
Qed.

Lemma only_or_other (c : N) (s : str) :
  s = repeat c (length s) \/ exists x, In x s /\ x <> c.
Proof.
  induction s as [|y t IH]; [now left|].
  destruct (N.eq_dec y c) as [->|Hne].
  - destruct IH as [Heq|(x & Hin & Hx)].
    + left. cbn [length repeat]. now rewrite <- Heq.
    + right. exists x. split; [now right|exact Hx].
  - right. exists y. split; [now left|exact Hne].
Qed.

(** C9.  Every completion path is a directory part (empty, or ending with
    a slash) followed by a file name without slash, and the shell is read
    off the file name.  When the file name is [stem.sh], where [sh] has no
    dot and [stem] has a character other than a dot, the extension that
    [os.path.splitext] gives is [.sh] and the shell is [sh]: the extension
    without its leading dot.  When the file name has no dot, or nothing
    but dots before its last dot, the extension is empty and the shell is
    [zsh].  One of the two is the case for every path.  The path is kept
    as given. *)
Theorem completion_shell_from_extension p :
  completion_path (Completion_parse p) = p
  /\ exists dir name,
       p = dir ++ name
       /\ (dir = [] \/ exists d, dir = d ++ u "/")
       /\ ~ In 47 name
       /\ ((exists stem sh,
              name = stem ++ u "." ++ sh
              /\ (exists c, In c stem /\ c <> 46)
              /\ ~ In 46 sh
              /\ os_path_splitext p = (dir ++ stem, u "." ++ sh)
              /\ shell (Completion_parse p) = sh)
           \/ (exists n rest,
                 name = repeat 46 n ++ rest
                 /\ ~ In 46 rest
                 /\ os_path_splitext p = (p, [])
                 /\ shell (Completion_parse p) = u "zsh")).
Proof.
  split.
  { unfold Completion_parse. now destruct (os_path_splitext p). }
  assert (exists dir name,
            p = dir ++ name
            /\ (dir = [] \/ exists d, dir = d ++ u "/")
            /\ ~ In 47 name) as (dir & name & -> & Hdir & Hname).
  { destruct (cut_at_last 47 p) as [Hnot|(a & b & -> & Hb)].
    - exists [], p. repeat split; [now left|exact Hnot].
    - exists (a ++ u "/"), b. rewrite <- app_assoc.
      repeat split; [right; now exists a|exact Hb]. }
  exists dir, name. split; [reflexivity|]. split; [exact Hdir|].
  split; [exact Hname|].
  destruct (cut_at_last 46 name) as [Hnot|(stem & sh & -> & Hsh)].
  - right. exists 0%nat, name. split; [reflexivity|]. split; [exact Hnot|].
    pose proof (splitext_without_extension dir 0 name Hdir Hname Hnot)
      as Hsplit.
    cbn [repeat app] in Hsplit. split; [exact Hsplit|].
    exact (Completion_parse_shell_default _ _ Hsplit).
  - assert (~ In 47 stem /\ ~ In 47 sh) as [Hstem Hslash].
    { split; intros H; apply Hname, in_or_app; [now left|right; now right]. }
    destruct (only_or_other 46 stem) as [Hdots|(c & Hin & Hc)].
    + right. exists (S (length stem)), sh.
      assert (stem ++ 46 :: sh = repeat 46 (S (length stem)) ++ sh) as Heq.
      { cbn [repeat]. rewrite repeat_cons, <- app_assoc, <- Hdots.
        reflexivity. }
      split; [exact Heq|]. split; [exact Hsh|].
      rewrite Heq.
      pose proof (splitext_without_extension dir (S (length stem)) sh Hdir
                    Hslash Hsh) as Hsplit.
      split; [exact Hsplit|].
      exact (Completion_parse_shell_default _ _ Hsplit).
    + left. exists stem, sh. split; [reflexivity|].
      split; [now exists c|]. split; [exact Hsh|].
      destruct (in_split _ _ Hin) as (s1 & s2 & ->).
      pose proof (splitext_of_file_name dir s1 c s2 sh Hdir Hstem Hc Hsh
                    Hslash) as Hsplit.
      split; [exact Hsplit|].
      exact (Completion_parse_shell_ext _ _ _ Hsplit Hsh).
Qed.

Example completion_shell_examples :
  shell (Completion_parse (u "completions/tool.fish")) = u "fish"
  /\ shell (Completion_parse (u "completions/tool.bash")) = u "bash"
  /\ shell (Completion_parse (u "completions/_tool")) = u "zsh"
  /\ shell (Completion_parse (u "comp.d/_tool")) = u "zsh"
  /\ shell (Completion_parse (u ".hidden")) = u "zsh"
  /\ shell (Completion_parse (u "tool.")) = [].
Proof. repeat split; reflexivity. Qed.

(* ===================================================================== *)
(** * Rendering, then reading the version back *)
(* ===================================================================== *)

Lemma no_linebreak_forallb s :
  forallb (fun c => negb (is_linebreak c)) s = true -> no_linebreak s.
Proof.
  unfold no_linebreak. induction s as [|c t IH]; simpl; intros H;
    constructor.
  - apply andb_true_iff in H. destruct H as [H _].
    now apply negb_true_iff in H.
  - apply IH. apply andb_true_iff in H. tauto.
Qed.

Lemma no_linebreak_app a b :
  no_linebreak a -> no_linebreak b -> no_linebreak (a ++ b).
Proof. unfold no_linebreak. intros Ha Hb. now apply Forall_app. Qed.

(** A run of characters without line boundary extends the current line. *)
Lemma splitlines_seg pre a t :
  no_linebreak a ->
  splitlines_from (rev pre) (a ++ t) = splitlines_from (rev (pre ++ a)) t.
Proof.
  unfold no_linebreak. revert pre.
  induction a as [|c a IH]; intros pre Ha; simpl.
  - now rewrite app_nil_r.
  - inversion Ha as [|? ? Hc Ha']; subst. rewrite Hc.
    change (c :: rev pre) with ([c] ++ rev pre).
    change [c] with (rev [c]). rewrite <- rev_app_distr.
    rewrite (IH (pre ++ [c]) Ha'). now rewrite <- app_assoc.
Qed.

(** A line feed ends the current line. *)
Lemma splitlines_nl pre t :
  splitlines_from (rev pre) ([nl] ++ t)
  = pre :: splitlines_from (rev []) t.
Proof.
  simpl. rewrite rev_involutive. now destruct t.
Qed.

Lemma rstrip_cons_nonspace c t :
  is_space c = false -> rstrip_space (c :: t) = c :: rstrip_space t.
Proof.
  intros H. simpl. rewrite H. now destruct (rstrip_space t).
Qed.

(** A line whose first character outside leading blanks is neither a
    blank nor [v] is not the version line. *)
Lemma not_version_line c s :
  is_space c = false -> c <> 118 ->
  str_startswith (u "version") (str_strip (c :: s)) = false.
Proof.
  intros Hs Hv. unfold str_strip. simpl lstrip_space. rewrite Hs.
  rewrite rstrip_cons_nonspace by assumption.
  change (u "version") with (118 :: u "ersion").
  change (str_startswith (118 :: u "ersion") (c :: rstrip_space s))
    with ((118 =? c) && str_startswith (u "ersion") (rstrip_space s)).
  apply N.eqb_neq in Hv. rewrite N.eqb_sym in Hv. now rewrite Hv.
Qed.

Lemma not_version_line_indented c s :
  is_space c = false -> c <> 118 ->
  str_startswith (u "version") (str_strip (32 :: 32 :: c :: s)) = false.
Proof.
  intros Hs Hv. exact (not_version_line c s Hs Hv).
Qed.

Lemma version_line_found rest :
  str_startswith (u "version") (str_strip (u "  version " ++ rest)) = true.
Proof.
  unfold str_strip.
  change (lstrip_space (u "  version " ++ rest))
    with (118 :: 101 :: 114 :: 115 :: 105 :: 111 :: 110 :: 32 :: rest).
  rewrite !rstrip_cons_nonspace by reflexivity. reflexivity.
Qed.

Lemma version_line_split v :
  ~ In dq v ->
  str_split dq (u "  version " ++ [dq] ++ v ++ [dq])
  = [u "  version "; v; []].
Proof.
  intros Hv.
  change (u "  version " ++ [dq] ++ v ++ [dq])
    with (u "  version " ++ dq :: (v ++ dq :: [])).
  rewrite str_split_app
    by (vm_compute; intuition discriminate).
  now rewrite str_split_app by assumption.
Qed.

(** The fields of [re.split] hold no character of the class. *)
Lemma re_split_class_fields cls cur in_run s field :
  Forall (fun c => cls c = false) cur ->
  In field (re_split_class cls cur in_run s) ->
  Forall (fun c => cls c = false) field.
Proof.
  revert cur in_run. induction s as [|c t IH]; intros cur in_run Hcur Hin.
  - simpl in Hin. destruct Hin as [<-|[]]. now apply Forall_rev.
  - simpl in Hin. destruct (cls c) eqn:Ec.
    + destruct in_run.
      * exact (IH [] true (List.Forall_nil _) Hin).
      * destruct Hin as [<-|Hin]; [now apply Forall_rev|].
        exact (IH [] true (List.Forall_nil _) Hin).
    + apply (IH (c :: cur) false); [|exact Hin]. now constructor.
Qed.

Lemma to_pascal_case_no_linebreak rt s :
  (forall w, Forall (fun c => re_word rt c = true) w ->
             no_linebreak (str_capitalize rt w)) ->
  no_linebreak (to_pascal_case rt s).
Proof.
  intros Hcap. unfold to_pascal_case, no_linebreak.
  apply Forall_concat. apply List.Forall_forall. intros w Hw.
  apply in_map_iff in Hw. destruct Hw as (field & <- & Hfield).
  apply filter_In in Hfield. destruct Hfield as [Hfield _].
  apply Hcap.
  pose proof (re_split_class_fields _ [] false s field (List.Forall_nil _) Hfield)
    as Hcls.
  eapply List.Forall_impl; [|exact Hcls]. intros c Hc. simpl in Hc.
  unfold non_word_or_underscore in Hc. apply orb_false_iff in Hc.
  destruct Hc as [Hc _]. now apply negb_false_iff in Hc.
Qed.

Lemma next_version_line_skip line lines :
  str_startswith (u "version") (str_strip line) = false ->
  next_version_line (line :: lines) = next_version_line lines.
Proof. intros H. unfold next_version_line. cbn [List.find]. now rewrite H. Qed.

Lemma next_version_line_hit line lines :
  str_startswith (u "version") (str_strip line) = true ->
  next_version_line (line :: lines) = OK line.
Proof. intros H. unfold next_version_line. cbn [List.find]. now rewrite H. Qed.

(** The first seven lines of a rendered formula. *)
Lemma rendered_lines kw :
  no_linebreak (kw F_desc) -> no_linebreak (kw F_cname) ->
  no_linebreak (kw F_homepage) -> no_linebreak (kw F_version) ->
  exists rest,
    str_splitlines (template_format FORMULA_TEMPLATE kw)
    = u "# frozen_string_literal: true"
      :: []
      :: (u "# " ++ kw F_desc)
      :: (u "class " ++ kw F_cname ++ u " < Formula")
      :: (u "  desc " ++ [dq] ++ kw F_desc ++ [dq])
      :: (u "  homepage " ++ [dq] ++ kw F_homepage ++ [dq])
      :: (u "  version " ++ [dq] ++ kw F_version ++ [dq])
      :: rest.
Proof.
  intros Hd Hc Hh Hv.
  unfold str_splitlines.
  cbv beta iota delta [template_format FORMULA_TEMPLATE Q NL].
  change (@nil N) with (rev (@nil N)) at 1.
  repeat first
    [ rewrite splitlines_nl
    | rewrite splitlines_seg
        by first [assumption | apply no_linebreak_forallb; reflexivity] ].
  eexists. rewrite <- !app_assoc. reflexivity.
Qed.

Lemma template_version_round_trip kw :
  no_linebreak (kw F_desc) -> no_linebreak (kw F_cname) ->
  no_linebreak (kw F_homepage) -> no_linebreak (kw F_version) ->
  ~ In dq (kw F_version) ->
  version_of_text (template_format FORMULA_TEMPLATE kw) = OK (kw F_version).
Proof.
  intros Hd Hc Hh Hv Hq.
  destruct (rendered_lines kw Hd Hc Hh Hv) as [rest Hlines].
  unfold version_of_text. rewrite Hlines.
  rewrite next_version_line_skip by reflexivity.
  rewrite next_version_line_skip by reflexivity.
  rewrite next_version_line_skip
    by (exact (not_version_line 35 (32 :: kw F_desc) eq_refl
                 ltac:(discriminate))).
  rewrite next_version_line_skip
    by (exact (not_version_line 99 _ eq_refl ltac:(discriminate))).
  rewrite next_version_line_skip
    by (exact (not_version_line_indented 100 _ eq_refl ltac:(discriminate))).
  rewrite next_version_line_skip
    by (exact (not_version_line_indented 104 _ eq_refl ltac:(discriminate))).
  rewrite next_version_line_hit by apply version_line_found.
  cbn [bindR]. now rewrite version_line_split.
Qed.

(** C6, as the code has it.  When the description and the home page of
    the formula hold no line boundary and the version holds neither a line
    boundary nor a double quote, reading the version out of the rendered
    text gives back the version that was rendered.  The class name holds
    no line boundary because [capitalize] maps a run of word characters to
    a string without one, which is assumed of the runtime. *)
Theorem rendered_version_round_trip rt self archives text :
  (forall w, Forall (fun c => re_word rt c = true) w ->
             no_linebreak (str_capitalize rt w)) ->
  generate_homebrew_formula rt self archives = OK text ->
  no_linebreak (desc (formula self)) ->
  no_linebreak (homepage (formula self)) ->
  no_linebreak (new_version self) ->
  ~ In dq (new_version self) ->
  version_of_text text = OK (new_version self).
Proof.
  intros Hcap Hgen Hd Hh Hv Hq.
  unfold generate_homebrew_formula in Hgen.
  destruct (mapR _ (deps (formula self))) as [deplines|e]; [|discriminate].
  cbn [bindR] in Hgen.
  destruct (Formula_name (formula self)) as [name|e]; [|discriminate].
  cbn [bindR] in Hgen.
  match type of Hgen with
  | OK (template_format _ ?kw) = _ =>
      pose proof (template_version_round_trip kw) as Hrt;
      assert (template_format FORMULA_TEMPLATE kw = text) as Htext
        by congruence
  end.
  rewrite <- Htext. cbv beta iota in Hrt. apply Hrt; try assumption.
  now apply to_pascal_case_no_linebreak.
Qed.

Lemma ascii_word_range c :
  ascii_word c = true -> 48 <= c /\ c <= 122.
Proof.
  unfold ascii_word. intros H.
  repeat (apply orb_true_iff in H; destruct H as [H|H]);
    try (apply andb_true_iff in H; destruct H as [H1 H2];
         apply N.leb_le in H1; apply N.leb_le in H2; lia).
  apply N.eqb_eq in H. lia.
Qed.

Lemma printable_no_linebreak c :
  32 <= c -> c <= 122 -> is_linebreak c = false.
Proof.
  intros H1 H2. unfold is_linebreak.
  repeat (apply orb_false_iff; split);
    try (apply andb_false_iff; right; apply N.leb_gt; lia);
    apply N.eqb_neq; lia.
Qed.

Lemma sample_capitalize_no_linebreak w :
  Forall (fun c => ascii_word c = true) w ->
  no_linebreak (ascii_capitalize w).
Proof.
  intros Hw. unfold no_linebreak.
  destruct w as [|c t]; [constructor|].
  inversion Hw as [|? ? Hc Ht]; subst. simpl. constructor.
  - apply ascii_word_range in Hc. apply printable_no_linebreak;
      unfold ascii_upper;
      destruct ((97 <=? c) && (c <=? 122)) eqn:E; try lia;
      apply andb_true_iff in E; destruct E as [E1 E2];
      apply N.leb_le in E1; apply N.leb_le in E2; lia.
  - apply List.Forall_forall. intros x Hx. apply in_map_iff in Hx.
    destruct Hx as (y & <- & Hy).
    rewrite List.Forall_forall in Ht. specialize (Ht y Hy).
    apply ascii_word_range in Ht. apply printable_no_linebreak;
      unfold ascii_lower;
      destruct ((65 <=? y) && (y <=? 90)) eqn:E; try lia;
      apply andb_true_iff in E; destruct E as [E1 E2];
      apply N.leb_le in E1; apply N.leb_le in E2; lia.
Qed.

Lemma rendered_version_round_trip_witness :
  exists text,
    generate_homebrew_formula (sample_runtime (sample_net [] all_ok))
      (sample_ctx false [u "openssl"; u "git#optional"] (u "1.3.0"))
      sample_archives = OK text
    /\ version_of_text text = OK (u "1.3.0").
Proof.
  eexists. split; [reflexivity|].
  apply (rendered_version_round_trip (sample_runtime (sample_net [] all_ok))
           (sample_ctx false [u "openssl"; u "git#optional"] (u "1.3.0"))
           sample_archives _ sample_capitalize_no_linebreak eq_refl).
  - apply no_linebreak_forallb. reflexivity.
  - apply no_linebreak_forallb. reflexivity.
  - apply no_linebreak_forallb. reflexivity.
  - vm_compute. intuition discriminate.
Defined.

(** C6, as stated, fails: a version with a double quote is read back cut
    at the quote, a version with a line break is read back cut at the
    break, and a description with a line that starts with [version] hides
    the rendered version. *)
Lemma rendered_version_round_trip_counterexample :
  let rt := sample_runtime (sample_net [] all_ok) in
  let read (ctx : HomebrewContext) :=
    (let! text := generate_homebrew_formula rt ctx sample_archives in
     version_of_text text)%res in
  read (sample_ctx false [] (u "1" ++ [dq] ++ u "2")) = OK (u "1")
  /\ u "1" <> u "1" ++ [dq] ++ u "2"
  /\ read (sample_ctx false [] (u "1" ++ [nl] ++ u "2")) = OK (u "1")
  /\ u "1" <> u "1" ++ [nl] ++ u "2"
  /\ read {| dry_run := false;
             formula :=
               sample_formula_desc
                 (u "A tool" ++ [nl] ++ u "version " ++ [dq] ++ u "9" ++ [dq]);
             new_version := u "1.3.0" |}
     = OK (u "9")
  /\ u "9" <> u "1.3.0".
Proof.
  intros rt read. repeat split; try reflexivity; vm_compute; discriminate.
Qed.

(* ===================================================================== *)
(** * Release resolution: the other outcomes *)
(* ===================================================================== *)

(** X1.  [urlopen] hands back a response only for a status from 200 to
    299 (for any other status it raises [HTTPError] itself, which is an
    exception of the [urlopen] parameter here).  When the release index
    answers with such a status other than 200 and a body that decodes, the
    query raises [RuntimeError] with the message
    [Failed to get latest release: HTTP status N]; the request is the only
    effect. *)
Theorem release_query_bad_status rt self owner repo' st resp text :
  urlopen rt (release_request self owner repo') = OK resp ->
  (200 < status resp < 300)%Z ->
  utf8_decode rt (body resp) = OK text ->
  get_latest_release_version rt self owner repo' st
  = (Raise (RuntimeError (u "Failed to get latest release: HTTP status "
                            ++ str_of_int (status resp))),
     record st [EvUrlopen (release_request self owner repo')]).
Proof.
  intros Hnet Hst Hdec.
  unfold get_latest_release_version, urlopen_io, bindIO, emit, liftR, raise.
  rewrite Hnet.
  assert ((status resp =? 200)%Z = false) as -> by (apply Z.eqb_neq; lia).
  simpl. now rewrite bytes_call_decode, Hdec.
Qed.

Lemma release_query_bad_status_witness :
  get_latest_release_version (payload_runtime 204 JNull) sample_client
    (u "acme") (u "tool") empty_state
  = (Raise (RuntimeError (u "Failed to get latest release: HTTP status 204")),
     record empty_state
       [EvUrlopen (release_request sample_client (u "acme") (u "tool"))]).
Proof.
  apply (release_query_bad_status (payload_runtime 204 JNull) sample_client
           (u "acme") (u "tool") empty_state
           {| status := 204; body := [] |} [] eq_refl).
  - cbn [status]. lia.
  - reflexivity.
Defined.

(** X2.  When the index answers 200 with a JSON object that has no
    [tag_name] key, the query returns [None]: the [KeyError] is caught. *)
Theorem release_without_tag_is_none rt self owner repo' st resp text items :
  urlopen rt (release_request self owner repo') = OK resp ->
  status resp = 200%Z ->
  utf8_decode rt (body resp) = OK text ->
  json_loads rt text = OK (JObj items) ->
  dict_get items (u "tag_name") = None ->
  get_latest_release_version rt self owner repo' st
  = (OK None, record st [EvUrlopen (release_request self owner repo')]).
Proof.
  intros Hnet Hst Hdec Hjson Hkey.
  unfold get_latest_release_version, urlopen_io, bindIO, emit, liftR, ret.
  rewrite Hnet, Hst. simpl.
  rewrite bytes_call_decode, Hdec, Hjson. simpl. now rewrite Hkey.
Qed.

Lemma release_without_tag_is_none_witness :
  get_latest_release_version
    (payload_runtime 200 (JObj [(u "name", JStr (u "1.0"))])) sample_client
    (u "acme") (u "tool") empty_state
  = (OK None,
     record empty_state
       [EvUrlopen (release_request sample_client (u "acme") (u "tool"))]).
Proof.
  apply (release_without_tag_is_none
           (payload_runtime 200 (JObj [(u "name", JStr (u "1.0"))]))
           sample_client (u "acme") (u "tool") empty_state
           {| status := 200; body := [] |} []
           [(u "name", JStr (u "1.0"))]); reflexivity.
Defined.

(** X3.  When the index answers 200 with JSON that is not an object, the
    query raises [TypeError]: only [KeyError] is caught, so such a payload
    is not taken for a release without tag. *)
Theorem release_payload_not_object rt self owner repo' st resp text payload :
  urlopen rt (release_request self owner repo') = OK resp ->
  status resp = 200%Z ->
  utf8_decode rt (body resp) = OK text ->
  json_loads rt text = OK payload ->
  (forall items, payload <> JObj items) ->
  exists msg,
    get_latest_release_version rt self owner repo' st
    = (Raise (TypeError msg),
       record st [EvUrlopen (release_request self owner repo')]).
Proof.
  intros Hnet Hst Hdec Hjson Hobj.
  unfold get_latest_release_version, urlopen_io, bindIO, emit, liftR, raise.
  rewrite Hnet, Hst. simpl.
  rewrite bytes_call_decode, Hdec, Hjson. simpl.
  destruct payload; simpl; try (eexists; reflexivity).
  exfalso. now apply (Hobj items).
Qed.

Lemma release_payload_not_object_witness :
  exists msg,
    get_latest_release_version (payload_runtime 200 (JArr [])) sample_client
      (u "acme") (u "tool") empty_state
    = (Raise (TypeError msg),
       record empty_state
         [EvUrlopen (release_request sample_client (u "acme") (u "tool"))]).
Proof.
  apply (release_payload_not_object (payload_runtime 200 (JArr []))
           sample_client (u "acme") (u "tool") empty_state
           {| status := 200; body := [] |} [] (JArr []));
    try reflexivity.
  intros items. discriminate.
Defined.

(** X4.  When the index answers 200 with an object whose [tag_name] is not
    a string (JSON [null], a number, ...), the query raises
    [AttributeError] at [lstrip]: the formula is not skipped. *)
Theorem release_tag_not_string rt self owner repo' st resp text items tag :
  urlopen rt (release_request self owner repo') = OK resp ->
  status resp = 200%Z ->
  utf8_decode rt (body resp) = OK text ->
  json_loads rt text = OK (JObj items) ->
  dict_get items (u "tag_name") = Some tag ->
  (forall t, tag <> JStr t) ->
  exists msg,
    get_latest_release_version rt self owner repo' st
    = (Raise (AttributeError msg),
       record st [EvUrlopen (release_request self owner repo')]).
Proof.
  intros Hnet Hst Hdec Hjson Hkey Hstr.
  unfold get_latest_release_version, urlopen_io, bindIO, emit, liftR, raise.
  rewrite Hnet, Hst. simpl.
  rewrite bytes_call_decode, Hdec, Hjson. simpl. rewrite Hkey.
  destruct tag; simpl; try (eexists; reflexivity).
  exfalso. now apply (Hstr s).
Qed.

Lemma release_tag_not_string_witness :
  exists msg,
    get_latest_release_version
      (payload_runtime 200 (JObj [(u "tag_name", JNull)])) sample_client
      (u "acme") (u "tool") empty_state
    = (Raise (AttributeError msg),
       record empty_state
         [EvUrlopen (release_request sample_client (u "acme") (u "tool"))]).
Proof.
  apply (release_tag_not_string
           (payload_runtime 200 (JObj [(u "tag_name", JNull)]))
           sample_client (u "acme") (u "tool") empty_state
           {| status := 200; body := [] |} []
           [(u "tag_name", JNull)] JNull); try reflexivity.
  intros t. discriminate.
Defined.

(* ===================================================================== *)
(** * The organisation, the name and the file of a formula *)
(* ===================================================================== *)

Lemma str_split_parts_no_sep sep s w :
  In w (str_split sep s) -> ~ In sep w.
Proof.
  revert w. induction s as [|c t IH]; intros w Hin; simpl in Hin.
  - destruct Hin as [<-|[]]. intros [].
  - destruct (N.eqb_spec c sep) as [->|Hne].
    + destruct Hin as [<-|Hin]; [intros []|now apply IH].
    + pose proof (str_split_nonempty sep t) as Hnil.
      destruct (str_split sep t) as [|w0 ws]; [congruence|].
      destruct Hin as [<-|Hin].
      * intros [E|Hw]; [congruence|].
        revert Hw. apply IH. now left.
      * apply IH. now right.
Qed.

Lemma list_getitem_in {A} (xs : list A) i x :
  list_getitem xs i = OK x -> In x xs.
Proof.
  unfold list_getitem. destruct (nth_error xs i) eqn:E; [|discriminate].
  intros H. injection H as <-. now apply nth_error_In with (n := i).
Qed.

(** X5.  For a repository [org/rest] whose [org] has no slash, the
    organisation is [org] and the name is the part of [rest] before its
    first slash (all of [rest] when it has none): the name never holds a
    slash. *)
Theorem formula_org_and_name self org rest :
  repo self = org ++ u "/" ++ rest ->
  ~ In 47 org ->
  Formula_org self = OK org
  /\ exists name,
       Formula_name self = OK name
       /\ ~ In 47 name
       /\ (rest = name \/ exists more, rest = name ++ u "/" ++ more).
Proof.
  intros Hrepo Horg. unfold Formula_org, Formula_name. rewrite Hrepo.
  change (org ++ u "/" ++ rest) with (org ++ 47 :: rest).
  rewrite str_split_app by assumption. split; [reflexivity|].
  destruct (in_dec N.eq_dec 47 rest) as [Hin|Hn].
  - destruct (in_first_occurrence _ _ Hin) as (name & more & -> & Hname).
    exists name. rewrite str_split_app by assumption.
    split; [reflexivity|]. split; [exact Hname|]. right. now exists more.
  - exists rest. rewrite str_split_no_sep by assumption.
    split; [reflexivity|]. split; [exact Hn|]. now left.
Qed.

Lemma formula_org_and_name_witness :
  Formula_org (sample_formula_repo (u "acme/tool/extra")) = OK (u "acme")
  /\ exists name,
       Formula_name (sample_formula_repo (u "acme/tool/extra")) = OK name
       /\ ~ In 47 name
       /\ (u "tool/extra" = name
           \/ exists more, u "tool/extra" = name ++ u "/" ++ more).
Proof.
  apply (formula_org_and_name (sample_formula_repo (u "acme/tool/extra"))
           (u "acme") (u "tool/extra") eq_refl).
  vm_compute. intuition discriminate.
Defined.

(** X6.  For a repository without slash, the organisation is the whole
    string and the name raises [IndexError]; so do the path of the formula
    file and every turn of the loop on that formula, before any effect. *)
Theorem formula_name_needs_slash rt dry token' bumped self st :
  ~ In 47 (repo self) ->
  Formula_org self = OK (repo self)
  /\ Formula_name self = Raise (IndexError (u "list index out of range"))
  /\ Formula_disk_path rt self
     = Raise (IndexError (u "list index out of range"))
  /\ update_tap_step rt dry token' bumped self st
     = (Raise (IndexError (u "list index out of range")), st).
Proof.
  intros Hn.
  assert (Formula_name self
          = Raise (IndexError (u "list index out of range"))) as Hname
    by (unfold Formula_name; now rewrite str_split_no_sep).
  split; [unfold Formula_org; now rewrite str_split_no_sep|].
  split; [exact Hname|]. split.
  - unfold Formula_disk_path. now rewrite Hname.
  - unfold update_tap_step, bindIO, liftR. now rewrite Hname.
Qed.

Lemma formula_name_needs_slash_witness :
  update_tap_step (sample_runtime (sample_net [] all_ok)) false (u "secret")
    [] (sample_formula_repo (u "tool")) empty_state
  = (Raise (IndexError (u "list index out of range")), empty_state).
Proof.
  refine (proj2 (proj2 (proj2
            (formula_name_needs_slash (sample_runtime (sample_net [] all_ok))
               false (u "secret") [] (sample_formula_repo (u "tool"))
               empty_state _)))).
  vm_compute. intuition discriminate.
Defined.

Lemma formula_name_no_slash self name :
  Formula_name self = OK name -> ~ In 47 name.
Proof.
  unfold Formula_name. intros H. apply list_getitem_in in H.
  now apply str_split_parts_no_sep in H.
Qed.

(** X7.  The formula file lies directly in the [Formula] directory, under
    a file name without slash, and two formulas have the same file only
    when they have the same name. *)
Theorem disk_path_in_formula_dir rt self other p :
  Formula_disk_path rt self = OK p ->
  exists name,
    Formula_name self = OK name
    /\ p = Formula_disk_dir rt ++ u "/" ++ name ++ u ".rb"
    /\ ~ In 47 (name ++ u ".rb")
    /\ (Formula_disk_path rt other = OK p -> Formula_name other = OK name).
Proof.
  unfold Formula_disk_path, Formula_disk_dir. intros H.
  destruct (Formula_name self) as [name|e] eqn:Hname; [|discriminate].
  cbn [bindR] in H. injection H as <-. exists name.
  split; [reflexivity|]. split; [now rewrite <- !app_assoc|]. split.
  - intros Hin. apply in_app_or in Hin. destruct Hin as [Hin|Hin].
    + now apply (formula_name_no_slash self name Hname).
    + vm_compute in Hin. intuition discriminate.
  - destruct (Formula_name other) as [name'|e]; [|discriminate].
    cbn [bindR]. intros H. injection H as H.
    apply (app_inv_head (tap_dir rt)) in H.
    apply (app_inv_head (u "/Formula/")) in H.
    apply (app_inv_tail (u ".rb")) in H. now subst.
Qed.

Lemma disk_path_in_formula_dir_witness :
  exists name,
    Formula_name (sample_formula []) = OK name
    /\ sample_path
       = Formula_disk_dir (sample_runtime (sample_net [] all_ok)) ++ u "/"
           ++ name ++ u ".rb"
    /\ ~ In 47 (name ++ u ".rb")
    /\ (Formula_disk_path (sample_runtime (sample_net [] all_ok))
          (sample_formula_repo (u "other/my-cool-tool")) = OK sample_path
        -> Formula_name (sample_formula_repo (u "other/my-cool-tool"))
           = OK name).
Proof.
  apply (disk_path_in_formula_dir (sample_runtime (sample_net [] all_ok))
           (sample_formula []) (sample_formula_repo (u "other/my-cool-tool"))
           sample_path eq_refl).
Defined.

(* ===================================================================== *)
(** * Fetching: the successful and the failing request *)
(* ===================================================================== *)

(** X8.  Outside a dry run, [fetch_and_hash] makes one request; a 200
    answer gives the SHA-256 hex digest of the body, and an exception of
    [urlopen] is raised as it is.  No file changes either way. *)
Theorem fetch_and_hash_outcomes rt self target st :
  dry_run self = false ->
  (forall resp,
     urlopen rt (artifact_request target) = OK resp ->
     status resp = 200%Z ->
     fetch_and_hash rt self target st
     = (OK (sha256_hexdigest rt (body resp)),
        record st [EvUrlopen (artifact_request target)]))
  /\ (forall e,
        urlopen rt (artifact_request target) = Raise e ->
        fetch_and_hash rt self target st
        = (Raise e, record st [EvUrlopen (artifact_request target)])).
Proof.
  intros Hdry. split.
  - intros resp Hnet Hst.
    unfold fetch_and_hash, bindIO, urlopen_io, emit, liftR, ret.
    rewrite Hdry. simpl. fold (artifact_request target).
    now rewrite Hnet, Hst.
  - intros e Hnet.
    unfold fetch_and_hash, bindIO, urlopen_io, emit, liftR.
    rewrite Hdry. simpl. fold (artifact_request target). now rewrite Hnet.
Qed.

Lemma fetch_and_hash_outcomes_witness :
  let rt := sample_runtime (sample_net [] all_ok) in
  let target := sample_url (u "1.3.0") (u "x86_64-apple-darwin") in
  fetch_and_hash rt (sample_ctx false [] (u "1.3.0")) target empty_state
  = (OK (sample_digest (sample_encode (u "archive"))),
     record empty_state [EvUrlopen (artifact_request target)]).
Proof.
  intros rt target.
  apply (proj1 (fetch_and_hash_outcomes rt (sample_ctx false [] (u "1.3.0"))
                  target empty_state eq_refl)
           {| status := 200; body := sample_encode (u "archive") |});
    reflexivity.
Defined.

(* ===================================================================== *)
(** * What a run may change *)
(* ===================================================================== *)

Lemma only_adds_refl P st : only_adds P st st.
Proof.
  split; [reflexivity|]. exists []. split; [now rewrite app_nil_r|constructor].
Qed.

Lemma only_adds_trans P st1 st2 st3 :
  only_adds P st1 st2 -> only_adds P st2 st3 -> only_adds P st1 st3.
Proof.
  intros (Hf1 & e1 & Ht1 & HP1) (Hf2 & e2 & Ht2 & HP2). split; [congruence|].
  exists (e1 ++ e2). split.
  - now rewrite Ht2, Ht1, app_assoc.
  - apply Forall_app. now split.
Qed.

Lemma only_adds_record P st evs : Forall P evs -> only_adds P st (record st evs).
Proof. intros H. split; [reflexivity|]. now exists evs. Qed.

Lemma fetch_events_are_urlopen self urls :
  Forall is_urlopen (concat (List.map (fetch_events self) urls)).
Proof.
  induction urls as [|x xs IH]; simpl; [constructor|].
  apply Forall_app. split; [|exact IH].
  unfold fetch_events. destruct (dry_run self); [constructor|].
  constructor; [|constructor]. now eexists.
Qed.

Lemma persist_run rt path text st :
  persist rt path text st
  = match fs_mkdir rt (Formula_disk_dir rt) with
    | Some e => (Raise e, record st [EvMkdir (Formula_disk_dir rt)])
    | None =>
        let tr := trace st ++ [EvMkdir (Formula_disk_dir rt);
                               EvWriteText path text] in
        match fs_write rt path text with
        | None =>
            (OK tt, {| files := <[path := text]> (files st); trace := tr |})
        | Some (e, None) => (Raise e, {| files := files st; trace := tr |})
        | Some (e, Some partial) =>
            (Raise e,
             {| files := <[path := partial]> (files st); trace := tr |})
        end
    end.
Proof.
  unfold persist, mkdir_parents, write_text, bindIO, emit, raise, ret, record.
  destruct (fs_mkdir rt (Formula_disk_dir rt)) as [e|]; [reflexivity|].
  cbn [files trace]. rewrite <- app_assoc. cbn [app].
  destruct (fs_write rt path text) as [[e [partial|]]|]; reflexivity.
Qed.

Lemma persist_ok rt path text st :
  fst (persist rt path text st) = OK tt ->
  snd (persist rt path text st)
  = {| files := <[path := text]> (files st);
       trace := trace st ++ [EvMkdir (Formula_disk_dir rt);
                             EvWriteText path text] |}.
Proof.
  rewrite persist_run.
  destruct (fs_mkdir rt (Formula_disk_dir rt)) as [e|]; [discriminate|].
  destruct (fs_write rt path text) as [[e [partial|]]|];
    try discriminate. reflexivity.
Qed.

Lemma persist_frame rt path text st p :
  p <> path -> files (snd (persist rt path text st)) !! p = files st !! p.
Proof.
  intros Hp. rewrite persist_run.
  destruct (fs_mkdir rt (Formula_disk_dir rt)) as [e|]; [reflexivity|].
  destruct (fs_write rt path text) as [[e [partial|]]|]; cbn [snd files];
    try reflexivity; now apply lookup_insert_ne.
Qed.

(** [update_formula], whatever its input: either the last two calls are
    not reached, no file changes and the only events are the requests of
    the fetches; or the run is not a dry run, the text is rendered and
    the last two calls decide the outcome. *)
Lemma update_formula_cases rt self st :
  (exists evs,
     snd (update_formula rt self st) = record st evs
     /\ Forall is_urlopen evs
     /\ (dry_run self = true -> evs = [])
     /\ (dry_run self = false ->
         exists e, fst (update_formula rt self st) = Raise e))
  \/ (exists evs path text archives,
        dry_run self = false
        /\ Formula_disk_path rt (formula self) = OK path
        /\ generate_homebrew_formula rt self archives = OK text
        /\ Forall is_urlopen evs
        /\ update_formula rt self st = persist rt path text (record st evs)).
Proof.
  assert (forall e,
            update_formula rt self st = (Raise e, st) ->
            exists evs,
              snd (update_formula rt self st) = record st evs
              /\ Forall is_urlopen evs
              /\ (dry_run self = true -> evs = [])
              /\ (dry_run self = false ->
                  exists e, fst (update_formula rt self st) = Raise e))
    as Hearly.
  { intros e He. exists []. rewrite He. cbn [fst snd]. rewrite record_nil.
    repeat split; try constructor. intros _. now exists e. }
  destruct (package_artifact_url rt self (u "aarch64-apple-darwin"))
    as [u1|e] eqn:E1;
    [|left; apply (Hearly e); unfold update_formula, bindIO, liftR;
      rewrite E1; reflexivity].
  destruct (package_artifact_url rt self (u "x86_64-apple-darwin"))
    as [u2|e] eqn:E2;
    [|left; apply (Hearly e); unfold update_formula, bindIO, liftR;
      rewrite E1, E2; reflexivity].
  destruct (package_artifact_url rt self (u "aarch64-unknown-linux-musl"))
    as [u3|e] eqn:E3;
    [|left; apply (Hearly e); unfold update_formula, bindIO, liftR;
      rewrite E1, E2, E3; reflexivity].
  destruct (package_artifact_url rt self (u "x86_64-unknown-linux-musl"))
    as [u4|e] eqn:E4;
    [|left; apply (Hearly e); unfold update_formula, bindIO, liftR;
      rewrite E1, E2, E3, E4; reflexivity].
  clear Hearly.
  assert (List.map (package_artifact_url rt self) triples
          = [OK u1; OK u2; OK u3; OK u4]) as Hurls
    by (unfold triples; cbn [List.map]; rewrite E1, E2, E3, E4; reflexivity).
  rewrite (update_formula_run _ _ _ _ _ _ _ Hurls).
  set (evs := concat (List.map (fetch_events self) [u1; u2; u3; u4])).
  assert (Forall is_urlopen evs) as Hevs by apply fetch_events_are_urlopen.
  assert (dry_run self = true -> evs = []) as Hdry
    by (intros Hd; now apply no_events_in_dry_run).
  match goal with
  | |- context [match ?chain with OK _ => _ | Raise _ => _ end] =>
      destruct chain as [[path text]|e] eqn:Echain
  end.
  - destruct (dry_run self) eqn:Ed.
    + left. exists evs. cbn [fst snd]. repeat split; try assumption.
      discriminate.
    + right.
      destruct (fst (get_archive rt self u1 empty_state)) as [a1|?];
        [|discriminate].
      destruct (fst (get_archive rt self u2 empty_state)) as [a2|?];
        [|discriminate].
      destruct (fst (get_archive rt self u3 empty_state)) as [a3|?];
        [|discriminate].
      destruct (fst (get_archive rt self u4 empty_state)) as [a4|?];
        [|discriminate].
      cbn [bindR] in Echain.
      destruct (generate_homebrew_formula rt self _) as [text'|?] eqn:Egen;
        [|discriminate].
      cbn [bindR] in Echain.
      destruct (Formula_disk_path rt (formula self)) as [path'|?];
        [|discriminate].
      cbn [bindR] in Echain. injection Echain as -> ->.
      exists evs, path, text,
        {| mac_aarch64 := a1; mac_x86_64 := a2;
           linux_aarch64 := a3; linux_x86_64 := a4 |}.
      split; [reflexivity|]. split; [reflexivity|].
      split; [exact Egen|]. split; [exact Hevs|reflexivity].
  - left. exists evs. cbn [fst snd]. repeat split; try assumption.
    intros _. now exists e.
Qed.

Lemma update_formula_dry_state rt self st :
  dry_run self = true -> snd (update_formula rt self st) = st.
Proof.
  intros Hdry.
  destruct (update_formula_cases rt self st)
    as [(evs & Hs & _ & Hnil & _)|(evs & p & t & a & Hf & _)];
    [|congruence].
  rewrite Hs, (Hnil Hdry). apply record_nil.
Qed.

Lemma HomebrewContext_init_state rt self v dry st :
  snd (HomebrewContext_init rt self v dry st) = st
  /\ forall ctx,
       fst (HomebrewContext_init rt self v dry st) = OK ctx ->
       ctx = {| dry_run := dry; formula := self; new_version := v |}.
Proof.
  unfold HomebrewContext_init, bindIO, raise, ret.
  pose proof (formula_version_state rt self st) as Hst.
  destruct (Formula_formula_version rt self st) as [[fv|e] s']; simpl in *;
    subst s'.
  - destruct (bool_decide (fv = Some v)); simpl; split; try reflexivity;
      intros ctx H; [discriminate|now injection H as <-].
  - split; [reflexivity|]. intros ctx H. discriminate.
Qed.

Lemma github_version_effect rt self token' st :
  only_adds is_release_query st
    (snd (Formula_github_version rt self token' st)).
Proof.
  unfold Formula_github_version, bindIO, liftR.
  destruct (Formula_org self) as [org|e]; [|apply only_adds_refl].
  destruct (Formula_name self) as [name|e]; [|apply only_adds_refl].
  rewrite get_latest_release_version_state.
  apply (only_adds_record is_release_query st
           [EvUrlopen
              (release_request
                 {| server_url := u "https://api.github.com";
                    token := token' |} org name)]).
  constructor; [|constructor]. now eexists _, _, _.
Qed.

(** One turn of the loop: the release query first, then either nothing
    more (skipped, up to date, or an exception before the update), or
    [update_formula] on the stale formula. *)
Lemma update_tap_step_cases rt dry token' bumped self st :
  exists st1,
    only_adds is_release_query st st1
    /\ ((snd (update_tap_step rt dry token' bumped self st) = st1
         /\ (fst (update_tap_step rt dry token' bumped self st) = OK bumped
             \/ exists e,
                  fst (update_tap_step rt dry token' bumped self st)
                  = Raise e))
        \/ exists v name,
             Formula_name self = OK name
             /\ snd (update_tap_step rt dry token' bumped self st)
                = snd (update_formula rt
                         {| dry_run := dry; formula := self;
                            new_version := v |} st1)
             /\ fst (update_tap_step rt dry token' bumped self st)
                = match fst (update_formula rt
                               {| dry_run := dry; formula := self;
                                  new_version := v |} st1) with
                  | OK _ => OK (bumped ++ [(name, v)])
                  | Raise e => Raise e
                  end).
Proof.
  unfold update_tap_step, bindIO, liftR, ret.
  destruct (Formula_name self) as [name|e] eqn:Hname.
  2:{ exists st. split; [apply only_adds_refl|]. left. cbn [fst snd].
      split; [reflexivity|]. right. now exists e. }
  pose proof (github_version_effect rt self token' st) as Hgh.
  destruct (Formula_github_version rt self token' st) as [[gv|e] st1];
    cbn [snd] in Hgh; exists st1; (split; [exact Hgh|]).
  2:{ left. cbn [fst snd]. split; [reflexivity|]. right. now exists e. }
  destruct gv as [v|].
  2:{ left. cbn [fst snd]. split; [reflexivity|]. now left. }
  destruct (HomebrewContext_init_state rt self v dry st1) as [Hs Hc].
  destruct (HomebrewContext_init rt self v dry st1) as [[ctx|e] st2];
    cbn [fst snd] in Hs, Hc; subst st2.
  - rewrite (Hc ctx eq_refl). right. exists v, name.
    split; [reflexivity|].
    destruct (update_formula rt _ st1) as [[[]|e] st3]; cbn [fst snd];
      split; reflexivity.
  - left. destruct e; cbn [fst snd]; (split; [reflexivity|]);
      first [left; reflexivity | right; eexists; reflexivity].
Qed.

Lemma update_tap_step_dry rt token' bumped self st :
  only_adds is_release_query st
    (snd (update_tap_step rt true token' bumped self st)).
Proof.
  destruct (update_tap_step_cases rt true token' bumped self st)
    as (st1 & Hq & [[-> _]|(v & name & _ & -> & _)]); [exact Hq|].
  now rewrite update_formula_dry_state by reflexivity.
Qed.

(** X9.  A dry run changes no file and makes no request but release
    queries, whatever the formulas and whatever the outcome: no artifact
    is fetched, no directory is made and nothing is written, also when
    the run aborts. *)
Theorem dry_run_loop_only_queries rt token' bumped formulas st :
  only_adds is_release_query st
    (snd (update_tap_loop rt true token' bumped formulas st)).
Proof.
  revert bumped st. induction formulas as [|f rest IH]; intros bumped st.
  - apply only_adds_refl.
  - cbn [update_tap_loop]. unfold bindIO.
    pose proof (update_tap_step_dry rt token' bumped f st) as Hstep.
    destruct (update_tap_step rt true token' bumped f st) as [[b|e] st1];
      cbn [snd] in Hstep; [|exact Hstep].
    exact (only_adds_trans _ _ _ _ Hstep (IH b st1)).
Qed.

Lemma update_formula_frame rt self st p :
  Formula_disk_path rt (formula self) <> OK p ->
  files (snd (update_formula rt self st)) !! p = files st !! p.
Proof.
  intros Hp.
  destruct (update_formula_cases rt self st)
    as [(evs & -> & _)|(evs & path & text & a & _ & Hpath & _ & _ & ->)];
    [reflexivity|].
  rewrite persist_frame by congruence. reflexivity.
Qed.

Lemma update_tap_step_frame rt dry token' bumped self st p :
  Formula_disk_path rt self <> OK p ->
  files (snd (update_tap_step rt dry token' bumped self st)) !! p
  = files st !! p.
Proof.
  intros Hp.
  destruct (update_tap_step_cases rt dry token' bumped self st)
    as (st1 & (Hf & _) & [[-> _]|(v & name & _ & -> & _)]);
    [now rewrite Hf|].
  rewrite update_formula_frame by exact Hp. now rewrite Hf.
Qed.

(** X10.  A run, dry or not, leaves every file alone that is not the
    formula file of one of its formulas, whatever its outcome. *)
Theorem update_tap_loop_frame rt dry token' bumped formulas st p :
  (forall f, In f formulas -> Formula_disk_path rt f <> OK p) ->
  files (snd (update_tap_loop rt dry token' bumped formulas st)) !! p
  = files st !! p.
Proof.
  revert bumped st. induction formulas as [|f rest IH]; intros bumped st Hp.
  - reflexivity.
  - cbn [update_tap_loop]. unfold bindIO.
    pose proof (update_tap_step_frame rt dry token' bumped f st p
                  (Hp f (or_introl eq_refl))) as Hstep.
    destruct (update_tap_step rt dry token' bumped f st) as [[b|e] st1];
      cbn [snd] in Hstep; [|exact Hstep].
    rewrite IH; [exact Hstep|]. intros g Hg. apply Hp. now right.
Qed.

Lemma update_tap_loop_frame_witness :
  let rt := sample_runtime (sample_net (u "v1.3.0") all_ok) in
  let st :=
    {| files := {[ u "/tap/README.md" := u "hello" ]}; trace := [] |} in
  files (snd (update_tap_loop rt false (u "secret") []
                [sample_formula []] st)) !! u "/tap/README.md"
  = Some (u "hello").
Proof.
  intros rt st.
  rewrite (update_tap_loop_frame rt false (u "secret") []
             [sample_formula []] st (u "/tap/README.md")).
  - reflexivity.
  - intros f [<-|[]]. vm_compute. discriminate.
Defined.

(** X11.  The list a run returns is the list it started with, followed by
    at most one entry per formula; the name of every entry added is the
    name of one of the formulas. *)
Theorem update_tap_loop_bumped rt dry token' bumped formulas st bumped' st' :
  update_tap_loop rt dry token' bumped formulas st = (OK bumped', st') ->
  exists added,
    bumped' = bumped ++ added
    /\ (length added <= length formulas)%nat
    /\ Forall (fun entry =>
                 exists f, In f formulas /\ Formula_name f = OK (fst entry))
         added.
Proof.
  revert bumped st. induction formulas as [|f rest IH]; intros bumped st H.
  - cbn [update_tap_loop] in H. unfold ret in H. injection H as <- _.
    exists []. split; [now rewrite app_nil_r|]. split; [reflexivity|constructor].
  - cbn [update_tap_loop] in H. unfold bindIO in H.
    destruct (update_tap_step_cases rt dry token' bumped f st)
      as (st1 & _ & Hcases).
    destruct (update_tap_step rt dry token' bumped f st) as [[b|e] st2];
      [|discriminate].
    destruct (IH b st2 H) as (added & -> & Hlen & Hnames).
    assert (Forall (fun entry =>
                      exists g, In g (f :: rest)
                                /\ Formula_name g = OK (fst entry)) added)
      as Hnames'.
    { eapply List.Forall_impl; [|exact Hnames].
      intros entry (g & Hg & Hn). exists g. split; [now right|exact Hn]. }
    cbn [fst snd] in Hcases.
    destruct Hcases as [[_ [Hb|[e He]]]|(v & name & Hname & _ & Hb)].
    + injection Hb as ->. exists added. split; [reflexivity|].
      split; [cbn [length]; lia|exact Hnames'].
    + discriminate.
    + destruct (fst (update_formula rt _ st1)); [|discriminate].
      injection Hb as ->. exists ((name, v) :: added).
      split; [now rewrite <- app_assoc|]. split; [cbn [length]; lia|].
      constructor; [|exact Hnames'].
      exists f. split; [now left|exact Hname].
Qed.

Lemma update_tap_loop_bumped_witness :
  let rt := sample_runtime (sample_net (u "v1.3.0") all_ok) in
  let st := state_declaring (u "1.2.0") in
  exists added,
    [(u "other", u "2.0"); (u "my-cool-tool", u "1.3.0")]
    = [(u "other", u "2.0")] ++ added
    /\ (length added <= 1)%nat
    /\ Forall (fun entry =>
                 exists f, In f [sample_formula []]
                           /\ Formula_name f = OK (fst entry)) added.
Proof.
  intros rt st.
  apply (update_tap_loop_bumped rt true (u "secret") [(u "other", u "2.0")]
           [sample_formula []] st
           [(u "other", u "2.0"); (u "my-cool-tool", u "1.3.0")]
           (snd (update_tap_loop rt true (u "secret")
                   [(u "other", u "2.0")] [sample_formula []] st))).
  vm_compute. reflexivity.
Defined.

Lemma update_tap_loop_app rt dry token' bumped before after st :
  update_tap_loop rt dry token' bumped (before ++ after) st
  = match update_tap_loop rt dry token' bumped before st with
    | (OK b, st1) => update_tap_loop rt dry token' b after st1
    | (Raise e, st1) => (Raise e, st1)
    end.
Proof.
  revert bumped st. induction before as [|f rest IH]; intros bumped st.
  - reflexivity.
  - cbn [app update_tap_loop]. unfold bindIO.
    destruct (update_tap_step rt dry token' bumped f st) as [[b|e] st1];
      [apply IH|reflexivity].
Qed.

(** X12.  The run stops at the first formula whose turn raises: the
    exception and the state of that turn are the outcome of the run, and
    the formulas after it are not looked at. *)
Theorem update_tap_loop_stops_at_error
    rt dry token' bumped before f after st b1 st1 e st2 :
  update_tap_loop rt dry token' bumped before st = (OK b1, st1) ->
  update_tap_step rt dry token' b1 f st1 = (Raise e, st2) ->
  update_tap_loop rt dry token' bumped (before ++ f :: after) st
  = (Raise e, st2).
Proof.
  intros Hbefore Hstep. rewrite update_tap_loop_app, Hbefore.
  cbn [update_tap_loop]. unfold bindIO. now rewrite Hstep.
Qed.

Lemma update_tap_loop_stops_at_error_witness :
  let rt := sample_runtime (sample_net (u "v1.3.0") all_ok) in
  let st := state_declaring (u "1.3.0") in
  let req :=
    release_request
      {| server_url := u "https://api.github.com"; token := u "secret" |}
      (u "acme") (u "my-cool-tool") in
  let st1 := {| files := files st; trace := [EvUrlopen req] |} in
  update_tap_loop rt false (u "secret") []
    ([sample_formula []]
       ++ sample_formula_repo (u "tool") :: [sample_formula [u "x#y#z"]]) st
  = (Raise (IndexError (u "list index out of range")), st1).
Proof.
  intros rt st req st1.
  apply (update_tap_loop_stops_at_error rt false (u "secret") []
           [sample_formula []] (sample_formula_repo (u "tool"))
           [sample_formula [u "x#y#z"]] st [] st1);
    vm_compute; reflexivity.
Defined.

(** X13.  A formula whose latest release has no [tag_name] is skipped:
    the turn of the loop returns [bumped] as it was, and its only effect
    is the release query. *)
Theorem release_without_tag_is_skipped
    rt dry token' bumped self st org name resp text items :
  Formula_org self = OK org ->
  Formula_name self = OK name ->
  let req :=
    release_request
      {| server_url := u "https://api.github.com"; token := token' |}
      org name in
  urlopen rt req = OK resp ->
  status resp = 200%Z ->
  utf8_decode rt (body resp) = OK text ->
  json_loads rt text = OK (JObj items) ->
  dict_get items (u "tag_name") = None ->
  update_tap_step rt dry token' bumped self st
  = (OK bumped, record st [EvUrlopen req]).
Proof.
  intros Horg Hname req Hnet Hst Hdec Hjson Hkey.
  unfold update_tap_step, Formula_github_version, bindIO, liftR, ret.
  rewrite Hname, Horg.
  unfold get_latest_release_version, urlopen_io, bindIO, emit, liftR, ret.
  fold req. rewrite Hnet, Hst. cbn [negb Z.eqb Pos.eqb].
  rewrite bytes_call_decode, Hdec, Hjson.
  unfold json_getitem. now rewrite Hkey.
Qed.

Lemma release_without_tag_is_skipped_witness :
  update_tap_step (payload_runtime 200 (JObj [])) false (u "secret")
    [(u "other", u "2.0")] (sample_formula []) empty_state
  = (OK [(u "other", u "2.0")],
     record empty_state
       [EvUrlopen
          (release_request
             {| server_url := u "https://api.github.com";
                token := u "secret" |} (u "acme") (u "my-cool-tool"))]).
Proof.
  apply (release_without_tag_is_skipped (payload_runtime 200 (JObj []))
           false (u "secret") [(u "other", u "2.0")] (sample_formula [])
           empty_state (u "acme") (u "my-cool-tool")
           {| status := 200; body := [] |} [] []); reflexivity.
Defined.

Lemma version_of_generated_text rt self archives text :
  (forall w, Forall (fun c => re_word rt c = true) w ->
             no_linebreak (str_capitalize rt w)) ->
  generate_homebrew_formula rt self archives = OK text ->
  no_linebreak (desc (formula self)) ->
  no_linebreak (homepage (formula self)) ->
  no_linebreak (new_version self) ->
  ~ In dq (new_version self) ->
  version_of_text text = OK (new_version self).
Proof.
  intros Hcap Hgen Hd Hh Hv Hq.
  unfold generate_homebrew_formula in Hgen.
  destruct (mapR _ (deps (formula self))) as [deplines|e]; [|discriminate].
  cbn [bindR] in Hgen.
  destruct (Formula_name (formula self)) as [name|e]; [|discriminate].
  cbn [bindR] in Hgen.
  match type of Hgen with
  | OK (template_format _ ?kw) = _ =>
      pose proof (template_version_round_trip kw) as Hrt;
      assert (template_format FORMULA_TEMPLATE kw = text) as Htext
        by congruence
  end.
  rewrite <- Htext. cbv beta iota in Hrt. apply Hrt; try assumption.
  now apply to_pascal_case_no_linebreak.
Qed.

(** X14.  After [update_formula] has returned outside a dry run, the
    formula file declares the new version, and a context for that version
    raises [VersionUpToDate]: running again against the same release is a
    no-op.  This holds when the description and the home page hold no
    line boundary and the version holds neither a line boundary nor a
    double quote ([capitalize] being assumed to keep word characters free
    of line boundaries). *)
Theorem update_then_up_to_date rt self st dry :
  (forall w, Forall (fun c => re_word rt c = true) w ->
             no_linebreak (str_capitalize rt w)) ->
  dry_run self = false ->
  fst (update_formula rt self st) = OK tt ->
  no_linebreak (desc (formula self)) ->
  no_linebreak (homepage (formula self)) ->
  no_linebreak (new_version self) ->
  ~ In dq (new_version self) ->
  let st' := snd (update_formula rt self st) in
  Formula_formula_version rt (formula self) st'
  = (OK (Some (new_version self)), st')
  /\ HomebrewContext_init rt (formula self) (new_version self) dry st'
     = (Raise VersionUpToDate, st').
Proof.
  intros Hcap Hdry Hok Hd Hh Hv Hq st'.
  assert (Formula_formula_version rt (formula self) st'
          = (OK (Some (new_version self)), st')) as Hfv.
  { subst st'.
    destruct (update_formula_cases rt self st)
      as [(evs & _ & _ & _ & Hraise)
         |(evs & path & text & a & _ & Hpath & Hgen & _ & Hst)].
    - destruct (Hraise Hdry) as [e He]. congruence.
    - rewrite Hst in Hok |- *. rewrite (persist_ok _ _ _ _ Hok).
      rewrite (formula_version_present rt (formula self) _ path text Hpath)
        by (cbn [files]; apply lookup_insert_eq).
      now rewrite (version_of_generated_text rt self a text Hcap Hgen). }
  split; [exact Hfv|].
  apply HomebrewContext_init_up_to_date. now rewrite Hfv.
Qed.

Lemma update_then_up_to_date_witness :
  let rt := sample_runtime (sample_net (u "v1.3.0") all_ok) in
  let ctx := sample_ctx false [u "openssl"] (u "1.3.0") in
  let st' := snd (update_formula rt ctx (state_declaring (u "1.2.0"))) in
  Formula_formula_version rt (formula ctx) st' = (OK (Some (u "1.3.0")), st')
  /\ HomebrewContext_init rt (formula ctx) (u "1.3.0") false st'
     = (Raise VersionUpToDate, st').
Proof.
  intros rt ctx st'.
  apply (update_then_up_to_date rt ctx (state_declaring (u "1.2.0")) false
           sample_capitalize_no_linebreak eq_refl).
  - vm_compute. reflexivity.
  - apply no_linebreak_forallb. reflexivity.
  - apply no_linebreak_forallb. reflexivity.
  - apply no_linebreak_forallb. reflexivity.
  - vm_compute. intuition discriminate.
Defined.

(* ===================================================================== *)
(** * The class name *)
(* ===================================================================== *)

Lemma words_in_run cls s :
  List.filter (fun w => negb (str_eqb w [])) (re_split_class cls [] true s)
  = List.filter (fun w => negb (str_eqb w [])) (re_split_class cls [] false s).
Proof.
  destruct s as [|c t]; [reflexivity|].
  cbn [re_split_class]. destruct (cls c); reflexivity.
Qed.

Lemma words_app cls c s2 s1 cur in_run :
  cls c = true ->
  (in_run = true -> cur = []) ->
  List.filter (fun w => negb (str_eqb w []))
    (re_split_class cls cur in_run (s1 ++ c :: s2))
  = List.filter (fun w => negb (str_eqb w []))
      (re_split_class cls cur in_run s1)
    ++ List.filter (fun w => negb (str_eqb w []))
         (re_split_class cls [] false s2).
Proof.
  intros Hc. revert cur in_run.
  induction s1 as [|x s1 IH]; intros cur in_run Hrun.
  - cbn [app re_split_class]. rewrite Hc. destruct in_run.
    + rewrite (Hrun eq_refl). cbn [rev List.filter app].
      apply words_in_run.
    + change (rev cur :: re_split_class cls [] true s2)
        with ([rev cur] ++ re_split_class cls [] true s2).
      rewrite List.filter_app. now rewrite words_in_run.
  - cbn [app re_split_class]. destruct (cls x).
    + destruct in_run.
      * apply IH. reflexivity.
      * change (rev cur :: re_split_class cls [] true (s1 ++ c :: s2))
          with ([rev cur] ++ re_split_class cls [] true (s1 ++ c :: s2)).
        change (rev cur :: re_split_class cls [] true s1)
          with ([rev cur] ++ re_split_class cls [] true s1).
        rewrite !List.filter_app, IH by reflexivity.
        now rewrite app_assoc.
    + apply IH. discriminate.
Qed.

(** X15.  A character of the class [[\W_]] only separates words: the
    class name of [s1 c s2] is the class name of [s1] followed by that of
    [s2], whatever [s1] and [s2] are. *)
Theorem to_pascal_case_separator rt s1 c s2 :
  non_word_or_underscore rt c = true ->
  to_pascal_case rt (s1 ++ [c] ++ s2)
  = to_pascal_case rt s1 ++ to_pascal_case rt s2.
Proof.
  intros Hc. unfold to_pascal_case.
  change (s1 ++ [c] ++ s2) with (s1 ++ c :: s2).
  rewrite (words_app _ c s2 s1 [] false Hc) by discriminate.
  now rewrite List.map_app, concat_app.
Qed.

Lemma to_pascal_case_separator_witness :
  let rt := sample_runtime (sample_net [] all_ok) in
  to_pascal_case rt (u "my-cool" ++ u "_" ++ u "tool")
  = to_pascal_case rt (u "my-cool") ++ to_pascal_case rt (u "tool").
Proof.
  intros rt.
  apply (to_pascal_case_separator rt (u "my-cool") 95 (u "tool")).
  reflexivity.
Defined.

Lemma re_split_class_word cls s cur in_run :
  Forall (fun c => cls c = false) s ->
  s <> [] ->
  re_split_class cls cur in_run s = [rev cur ++ s].
Proof.
  revert cur in_run. induction s as [|c t IH]; intros cur in_run Hs Hne;
    [congruence|].
  inversion Hs as [|? ? Hc Ht]; subst. cbn [re_split_class]. rewrite Hc.
  destruct t as [|c' t'].
  - cbn [re_split_class rev]. reflexivity.
  - rewrite IH by (assumption || discriminate).
    cbn [rev]. now rewrite <- app_assoc.
Qed.

(** X16.  A non-empty name without any character of the class [[\W_]] is
    one word: its class name is [capitalize] of the whole name.  A name
    made of such characters only has the empty class name. *)
Theorem to_pascal_case_one_word rt w :
  w <> [] ->
  (Forall (fun c => non_word_or_underscore rt c = false) w ->
   to_pascal_case rt w = str_capitalize rt w)
  /\ (Forall (fun c => non_word_or_underscore rt c = true) w ->
      to_pascal_case rt w = []).
Proof.
  intros Hne. split.
  - intros Hw. unfold to_pascal_case.
    rewrite (re_split_class_word _ w [] false Hw Hne).
    cbn [rev app List.filter].
    assert (str_eqb w [] = false) as -> by now apply str_eqb_false.
    cbn [negb List.map concat]. now rewrite app_nil_r.
  - intros Hw. unfold to_pascal_case.
    assert (forall in_run,
              List.filter (fun x => negb (str_eqb x []))
                (re_split_class (non_word_or_underscore rt) [] in_run w)
              = []) as Hnone.
    { clear Hne. induction w as [|c t IH]; intros in_run; [reflexivity|].
      inversion Hw as [|? ? Hc Ht]; subst. cbn [re_split_class].
      rewrite Hc. destruct in_run; [now apply IH|].
      cbn [rev List.filter]. now apply IH. }
    now rewrite Hnone.
Qed.

Lemma to_pascal_case_one_word_witness :
  let rt := sample_runtime (sample_net [] all_ok) in
  to_pascal_case rt (u "tool") = str_capitalize rt (u "tool")
  /\ to_pascal_case rt (u "-_-") = [].
Proof.
  intros rt. split.
  - apply (proj1 (to_pascal_case_one_word rt (u "tool")
                    ltac:(discriminate))).
    repeat constructor.
  - assert (u "-_-" <> []) as Hne by discriminate.
    apply (proj2 (to_pascal_case_one_word rt (u "-_-") Hne)).
    repeat constructor.
Defined.

(* ===================================================================== *)
(** * When rendering succeeds, and what a version line must look like *)
(* ===================================================================== *)

Lemma well_formed_or_not dep : malformed_dep dep \/ ~ malformed_dep dep.
Proof.
  unfold malformed_dep.
  destruct (str_split 35 dep) as [|p1 [|p2 [|p3 ps]]];
    [left; exact I|right; intros []| |left; exact I].
  destruct (decide (p2 = u "optional")) as [->|Ho].
  - right. intros [H _]. now apply H.
  - destruct (decide (p2 = u "recommended")) as [->|Hr].
    + right. intros [_ H]. now apply H.
    + left. now split.
Qed.

(** X17.  For a formula whose repository names it, rendering succeeds
    exactly when no dependency is malformed; a malformed dependency makes
    it raise [ValueError], whatever the archives. *)
Theorem generate_succeeds_iff rt self archives name :
  Formula_name (formula self) = OK name ->
  ((exists text, generate_homebrew_formula rt self archives = OK text)
   <-> forall dep, In dep (deps (formula self)) -> ~ malformed_dep dep)
  /\ ((exists msg,
         generate_homebrew_formula rt self archives = Raise (ValueError msg))
      <-> exists dep, In dep (deps (formula self)) /\ malformed_dep dep).
Proof.
  intros Hname.
  assert ((exists dep, In dep (deps (formula self)) /\ malformed_dep dep)
          \/ forall dep, In dep (deps (formula self)) -> ~ malformed_dep dep)
    as Hdec.
  { induction (deps (formula self)) as [|d ds IH].
    - right. intros dep [].
    - destruct (well_formed_or_not d) as [Hbad|Hgood].
      + left. exists d. split; [now left|exact Hbad].
      + destruct IH as [(dep & Hin & Hbad)|Hall].
        * left. exists dep. split; [now right|exact Hbad].
        * right. intros dep [<-|Hin]; [exact Hgood|now apply Hall]. }
  split; split.
  - intros [text Hok] dep Hin Hbad.
    destruct (generate_raises_on_malformed_dep rt self archives dep Hin Hbad)
      as [msg Hr]. congruence.
  - intros Hall. now apply generate_renders with (name := name).
  - intros [msg Hr]. destruct Hdec as [Hex|Hall]; [exact Hex|].
    destruct (generate_renders rt self archives name Hname Hall) as [t Ht].
    congruence.
  - intros (dep & Hin & Hbad).
    now apply generate_raises_on_malformed_dep with (dep := dep).
Qed.

Lemma generate_succeeds_iff_witness :
  let rt := sample_runtime (sample_net [] all_ok) in
  ((exists text,
      generate_homebrew_formula rt (sample_ctx false [u "git#optional"] (u "1"))
        sample_archives = OK text)
   <-> forall dep, In dep [u "git#optional"] -> ~ malformed_dep dep)
  /\ ((exists msg,
         generate_homebrew_formula rt
           (sample_ctx false [u "git#optional"] (u "1")) sample_archives
         = Raise (ValueError msg))
      <-> exists dep, In dep [u "git#optional"] /\ malformed_dep dep).
Proof.
  intros rt.
  exact (generate_succeeds_iff rt (sample_ctx false [u "git#optional"] (u "1"))
           sample_archives (u "my-cool-tool") eq_refl).
Defined.

(** X18.  The declared version is what stands between the first double
    quote of the version line and the next one, or the end of the line
    when no second quote follows; a version line without any double quote
    makes the reading raise [IndexError]. *)
Theorem version_line_quotes content line :
  next_version_line (str_splitlines content) = OK line ->
  (~ In dq line ->
   version_of_text content = Raise (IndexError (u "list index out of range")))
  /\ (forall before v,
        ~ In dq before -> ~ In dq v ->
        (line = before ++ [dq] ++ v
         \/ exists after, line = before ++ [dq] ++ v ++ [dq] ++ after) ->
        version_of_text content = OK v).
Proof.
  intros Hline. unfold version_of_text. rewrite Hline. cbn [bindR]. split.
  - intros Hn. now rewrite str_split_no_sep.
  - intros before v Hb Hv [->|[after ->]].
    + change (before ++ [dq] ++ v) with (before ++ dq :: v).
      rewrite str_split_app by assumption.
      now rewrite str_split_no_sep.
    + change (before ++ [dq] ++ v ++ [dq] ++ after)
        with (before ++ dq :: (v ++ dq :: after)).
      rewrite str_split_app by assumption.
      now rewrite str_split_app.
Qed.

Lemma version_line_quotes_witness :
  version_of_text (u "class X" ++ [nl] ++ u "  version 1.2" ++ [nl])
  = Raise (IndexError (u "list index out of range"))
  /\ version_of_text
       (u "  version " ++ [dq] ++ u "1.2" ++ [dq] ++ u " # " ++ [dq] ++ u "x"
          ++ [dq] ++ [nl])
     = OK (u "1.2").
Proof.
  split.
  - apply (proj1 (version_line_quotes
                    (u "class X" ++ [nl] ++ u "  version 1.2" ++ [nl])
                    (u "  version 1.2") eq_refl)).
    vm_compute. intuition discriminate.
  - apply (proj2 (version_line_quotes
                    (u "  version " ++ [dq] ++ u "1.2" ++ [dq] ++ u " # "
                       ++ [dq] ++ u "x" ++ [dq] ++ [nl])
                    (u "  version " ++ [dq] ++ u "1.2" ++ [dq] ++ u " # "
                       ++ [dq] ++ u "x" ++ [dq])
                    eq_refl) (u "  version ") (u "1.2")).
    + vm_compute. intuition discriminate.
    + vm_compute. intuition discriminate.
    + right. exists (u " # " ++ [dq] ++ u "x" ++ [dq]). reflexivity.
Defined.

(* ===================================================================== *)
(** * The shell of a completion, from the file name *)
(* ===================================================================== *)

(** X19.  For a path whose file name is [stem.sh], where [stem] has a
    character other than a dot and no slash, and [sh] has neither dot nor
    slash, [splitext] cuts at the last dot and the shell is [sh],
    whatever directory part precedes the file name. *)
Theorem completion_shell_of_file_name dir s1 c s2 sh :
  (dir = [] \/ exists d, dir = d ++ u "/") ->
  ~ In 47 (s1 ++ c :: s2) -> c <> 46 ->
  ~ In 46 sh -> ~ In 47 sh ->
  let path := dir ++ (s1 ++ c :: s2) ++ u "." ++ sh in
  os_path_splitext path = (dir ++ s1 ++ c :: s2, u "." ++ sh)
  /\ shell (Completion_parse path) = sh.
Proof.
  intros Hdir Hstem Hc Hdot Hslash path.
  assert (os_path_splitext path = (dir ++ s1 ++ c :: s2, u "." ++ sh))
    as Hsplit by now apply splitext_of_file_name.
  split; [exact Hsplit|].
  exact (Completion_parse_shell_ext _ _ _ Hsplit Hdot).
Qed.

Lemma completion_shell_of_file_name_witness :
  os_path_splitext (u "completions/" ++ (u "" ++ 116 :: u "ool.v2") ++ u "."
                      ++ u "fish")
  = (u "completions/" ++ u "" ++ 116 :: u "ool.v2", u "." ++ u "fish")
  /\ shell (Completion_parse
              (u "completions/" ++ (u "" ++ 116 :: u "ool.v2") ++ u "."
                 ++ u "fish"))
     = u "fish".
Proof.
  apply (completion_shell_of_file_name (u "completions/") (u "") 116
           (u "ool.v2") (u "fish")).
  - right. exists (u "completions"). reflexivity.
  - vm_compute. intuition discriminate.
  - discriminate.
  - vm_compute. intuition discriminate.
  - vm_compute. intuition discriminate.
Defined.

(* ===================================================================== *)
(** * The stale formula: first runs, unreadable files, the update *)
(* ===================================================================== *)

(** X20.  What [update_formula] may do to the files.  Either no file
    changes, which outside a dry run means that it raised.  Or the run is
    not a dry run, the text was rendered from four archives, the requests
    were followed by one [mkdir] and one [write_text] of that text to the
    formula file, no other file changed, and either the call returned and
    the formula file holds the text, or [write_text] raised and the
    formula file holds what the failed write left of it. *)
Theorem update_formula_file_outcomes rt self st :
  (files (snd (update_formula rt self st)) = files st
   /\ (dry_run self = false ->
       exists e, fst (update_formula rt self st) = Raise e))
  \/ (dry_run self = false
      /\ exists path text archives evs,
           Formula_disk_path rt (formula self) = OK path
           /\ generate_homebrew_formula rt self archives = OK text
           /\ Forall is_urlopen evs
           /\ trace (snd (update_formula rt self st))
              = trace st ++ evs ++ [EvMkdir (Formula_disk_dir rt);
                                    EvWriteText path text]
           /\ ((fst (update_formula rt self st) = OK tt
                /\ files (snd (update_formula rt self st))
                   = <[path := text]> (files st))
               \/ (exists e partial,
                     fs_write rt path text = Some (e, Some partial)
                     /\ fst (update_formula rt self st) = Raise e
                     /\ files (snd (update_formula rt self st))
                        = <[path := partial]> (files st)))).
Proof.
  destruct (update_formula_cases rt self st)
    as [(evs & Hs & _ & _ & Hraise)
       |(evs & path & text & a & Hdry & Hpath & Hgen & Hevs & Hs)].
  - left. split; [|exact Hraise]. now rewrite Hs.
  - rewrite Hs, persist_run. unfold record. cbn [files trace].
    destruct (fs_mkdir rt (Formula_disk_dir rt)) as [e|].
    { left. split; [reflexivity|]. intros _. now exists e. }
    destruct (fs_write rt path text) as [[e [partial|]]|] eqn:Ew;
      cbn [fst snd files trace].
    + right. split; [exact Hdry|]. exists path, text, a, evs.
      split; [exact Hpath|]. split; [exact Hgen|]. split; [exact Hevs|].
      split; [symmetry; apply app_assoc|]. right. now exists e, partial.
    + left. split; [reflexivity|]. intros _. now exists e.
    + right. split; [exact Hdry|]. exists path, text, a, evs.
      split; [exact Hpath|]. split; [exact Hgen|]. split; [exact Hevs|].
      split; [symmetry; apply app_assoc|]. now left.
Qed.

(** X21.  A formula that has no file yet is stale for every resolved
    version: the context is built, without any effect. *)
Theorem first_run_is_stale rt self v dry st p :
  Formula_disk_path rt self = OK p ->
  files st !! p = None ->
  HomebrewContext_init rt self v dry st
  = (OK {| dry_run := dry; formula := self; new_version := v |}, st).
Proof.
  intros Hp Hf.
  apply HomebrewContext_init_stale with (declared := None); [|discriminate].
  now rewrite (formula_version_missing rt self st p Hp Hf).
Qed.

Lemma first_run_is_stale_witness :
  HomebrewContext_init (sample_runtime (sample_net [] all_ok))
    (sample_formula []) (u "1.3.0") false empty_state
  = (OK {| dry_run := false; formula := sample_formula [];
           new_version := u "1.3.0" |}, empty_state).
Proof.
  apply (first_run_is_stale (sample_runtime (sample_net [] all_ok))
           (sample_formula []) (u "1.3.0") false empty_state sample_path);
    reflexivity.
Defined.

Lemma version_of_text_raises content e :
  version_of_text content = Raise e ->
  e = StopIteration \/ e = IndexError (u "list index out of range").
Proof.
  unfold version_of_text, next_version_line.
  destruct (List.find _ (str_splitlines content)) as [line|]; cbn [bindR].
  - unfold list_getitem. destruct (nth_error _ 1); [discriminate|].
    intros H. injection H as <-. now right.
  - intros H. injection H as <-. now left.
Qed.

(** X22.  When the formula file exists and its version cannot be read (no
    version line, or a version line without double quote), the turn of
    the loop raises that exception right after the release query: the
    file is not regenerated and no artifact is fetched. *)
Theorem unreadable_formula_aborts
    rt dry token' bumped self st st1 v p content e :
  Formula_github_version rt self token' st = (OK (Some v), st1) ->
  Formula_disk_path rt self = OK p ->
  files st1 !! p = Some content ->
  version_of_text content = Raise e ->
  update_tap_step rt dry token' bumped self st = (Raise e, st1)
  /\ only_adds is_release_query st st1.
Proof.
  intros Hgh Hp Hf Hv.
  pose proof (github_version_effect rt self token' st) as Heff.
  rewrite Hgh in Heff. cbn [snd] in Heff. split; [|exact Heff].
  destruct (github_version_resolved _ _ _ _ _ _ Hgh)
    as (org & name & _ & Hname & _).
  unfold update_tap_step, bindIO, liftR. rewrite Hname, Hgh.
  unfold HomebrewContext_init, bindIO.
  rewrite (formula_version_present rt self st1 p content Hp Hf), Hv.
  destruct (version_of_text_raises content e Hv) as [->| ->]; reflexivity.
Qed.

Lemma unreadable_formula_aborts_witness :
  let rt := sample_runtime (sample_net (u "v1.3.0") all_ok) in
  let st :=
    {| files := {[ sample_path := u "class MyCoolTool < Formula" ++ [nl] ]};
       trace := [] |} in
  let st1 :=
    record st
      [EvUrlopen
         (release_request
            {| server_url := u "https://api.github.com";
               token := u "secret" |} (u "acme") (u "my-cool-tool"))] in
  update_tap_step rt false (u "secret") [] (sample_formula []) st
  = (Raise StopIteration, st1)
  /\ only_adds is_release_query st st1.
Proof.
  intros rt st st1.
  apply (unreadable_formula_aborts rt false (u "secret") []
           (sample_formula []) st st1 (u "1.3.0") sample_path
           (u "class MyCoolTool < Formula" ++ [nl]) StopIteration);
    reflexivity.
Defined.



